(** * models/export.py: the YOLOv3 export pipeline, embedded in Rocq

    The script loads a checkpoint into a model ([load_model]), switches the
    model to its export configuration (the "Update model" loop), and then
    runs three export blocks (TorchScript, ONNX, CoreML), each inside its own
    [try: ... except Exception] statement.

    Python statements are embedded in a state-and-exception monad [Py]: the
    state carries the trace of calls to collaborators (torch, onnx,
    coremltools, sparseml, the rest of the repository) and the local
    variables whose binding depends on control flow ([ts]).  The outcome of
    each collaborator call is read from a [World] record, so that a theorem
    quantified over [World] speaks about every combination of successes and
    failures of the collaborators. *)

From Stdlib Require Import String Ascii List ZArith Bool Lia DecimalString.
Import ListNotations.
Open Scope string_scope.
Open Scope list_scope.
Set Warnings "-register-all".

(** ** Python strings *)

Module PyStr.

(** [s.startswith(p)] *)
Definition startswith (s p : string) : bool := String.prefix p s.

(** Scan of [str.replace] for a non-empty [old]: [skip] counts the
    characters of a matched occurrence that remain to be dropped. *)
Fixpoint replace_from (old new : string) (skip : nat) (s : string) : string :=
  match s with
  | EmptyString => EmptyString
  | String c t =>
      match skip with
      | S k => replace_from old new k t
      | O =>
          if startswith s old
          then (new ++ replace_from old new (String.length old - 1) t)%string
          else String c (replace_from old new 0 t)
      end
  end.

(** [old == ''] : [new] is inserted before every character and at the
    end. *)
Fixpoint interleave (new s : string) : string :=
  match s with
  | EmptyString => new
  | String c t => (new ++ String c (interleave new t))%string
  end.

(** [s.replace(old, new)]: every non-overlapping occurrence, leftmost
    first. *)
Definition replace (s old new : string) : string :=
  match old with
  | EmptyString => interleave new s
  | _ => replace_from old new 0 s
  end.

(** [old in s] *)
Fixpoint contains (s old : string) : bool :=
  startswith s old ||
  match s with
  | EmptyString => false
  | String _ t => contains t old
  end.

(** [s.split(sep)] for a one-character separator; [acc] is the piece
    being read. *)
Fixpoint split_from (sep : ascii) (acc : string) (s : string) : list string :=
  match s with
  | EmptyString => [acc]
  | String c t =>
      if Ascii.eqb c sep then acc :: split_from sep EmptyString t
      else split_from sep (acc ++ String c EmptyString)%string t
  end.

Definition split (s : string) (sep : ascii) : list string :=
  split_from sep EmptyString s.

(** [sep.join(l)] *)
Definition join (sep : string) (l : list string) : string :=
  String.concat sep l.

End PyStr.

(** ** Output file names (lines 102, 114, 145) *)

(** [f = opt.weights.replace('.pt', '.torchscript.pt')] *)
Definition torchscript_filename (weights : string) : string :=
  PyStr.replace weights ".pt" ".torchscript.pt".

(** [f = opt.weights.replace('.pt', '.onnx')] *)
Definition onnx_filename (weights : string) : string :=
  PyStr.replace weights ".pt" ".onnx".

(** [f = opt.weights.replace('.pt', '.mlmodel')] *)
Definition coreml_filename (weights : string) : string :=
  PyStr.replace weights ".pt" ".mlmodel".

(** ** Exceptions

    Every constructor stands for a subclass of Python's [Exception]: these
    are the failures that the [except Exception] clauses of the script
    handle. *)

Inductive exn : Type :=
| ValueError (msg : string)
| RuntimeError (msg : string)
| NameError (msg : string)
| KeyError (msg : string)
| IndexError (msg : string)
| AttributeError (msg : string)
| TypeError (msg : string)
| ImportError (msg : string)
| OtherError (cls msg : string).

(** [str(e)], as the [%s] of the failure messages formats it. *)
Definition exn_str (e : exn) : string :=
  match e with
  | ValueError m | RuntimeError m | NameError m | KeyError m | IndexError m
  | AttributeError m | TypeError m | ImportError m | OtherError _ m => m
  end.

(** ** Tensors, modules and models *)

Inductive Dtype : Type := F16 | F32 | F64 | I64.

(** A tensor: its shape, its element type, and its contents, kept opaque. *)
Record Tensor : Type := mkTensor {
  shape : list Z;
  dtype : Dtype;
  storage : list Z
}.

(** [collections.OrderedDict] from names to tensors. *)
Definition StateDict : Type := list (string * Tensor).

(** The classes the script tests with [isinstance], the containers of
    [torch.nn] that define [__getitem__], and [ClsOther] for any other
    class, none of which defines [__getitem__]. *)
Inductive ModClass : Type :=
| ClsModel            (* models.yolo.Model *)
| ClsSequential       (* nn.Sequential *)
| ClsModuleList       (* nn.ModuleList *)
| ClsModuleDict       (* nn.ModuleDict *)
| ClsConv             (* models.common.Conv *)
| ClsDetect           (* models.yolo.Detect *)
| ClsNNHardswish      (* nn.Hardswish *)
| ClsNNSiLU           (* nn.SiLU *)
| ClsHardswish        (* utils.activations.Hardswish *)
| ClsSiLU             (* utils.activations.SiLU *)
| ClsOther (name : string).

(** [type(m).__name__] *)
Definition class_name (c : ModClass) : string :=
  match c with
  | ClsModel => "Model"
  | ClsSequential => "Sequential"
  | ClsModuleList => "ModuleList"
  | ClsModuleDict => "ModuleDict"
  | ClsConv => "Conv"
  | ClsDetect => "Detect"
  | ClsNNHardswish | ClsHardswish => "Hardswish"
  | ClsNNSiLU | ClsSiLU => "SiLU"
  | ClsOther name => name
  end.

(** The values that the plain attributes of a module take in this model:
    [None], booleans, integers and strings. *)
Inductive PyAtom : Type :=
| AtomNone
| AtomBool (b : bool)
| AtomInt (n : Z)
| AtomStr (s : string).

(** An [nn.Module]: its class; the two attributes that the script assigns
    ([_non_persistent_buffers_set], and [export], [None] when the instance
    has no such attribute); its registries [_parameters], [_buffers] and
    [_modules], in order; and its other instance attributes ([attrs]).  A
    module is only ever held by [_modules] and a tensor by [_parameters] or
    [_buffers], as [nn.Module.__setattr__] arranges.  The modules of a model
    form a tree: no module object is registered under two parents. *)
Inductive Module : Type := Mod {
  cls : ModClass;
  non_persistent_buffers_set : list string;
  export : option bool;
  parameters : list (string * Tensor);
  buffers : list (string * Tensor);
  attrs : list (string * PyAtom);
  modules : list (string * Module)
}.

(** A [models.yolo.Model]: the module tree and the attributes of the model
    object that the script reads. *)
Record Model : Type := mkModel {
  net : Module;
  names : list string;
  stride : list Z;
  yaml : string
}.

(** A module as its constructor leaves it: [Hardswish()], [SiLU()]. *)
Definition fresh_module (c : ModClass) : Module :=
  Mod c [] None [] [] [("training", AtomBool true)] [].

Definition ModClass_eqb (a b : ModClass) : bool :=
  match a, b with
  | ClsModel, ClsModel | ClsSequential, ClsSequential
  | ClsModuleList, ClsModuleList | ClsModuleDict, ClsModuleDict
  | ClsConv, ClsConv | ClsDetect, ClsDetect | ClsNNHardswish, ClsNNHardswish
  | ClsNNSiLU, ClsNNSiLU | ClsHardswish, ClsHardswish | ClsSiLU, ClsSiLU => true
  | ClsOther x, ClsOther y => String.eqb x y
  | _, _ => false
  end.

(** [isinstance(m, c)] *)
Definition isinstance (m : Module) (c : ModClass) : bool :=
  ModClass_eqb (cls m) c.

(** Association lists keyed by strings: first binding wins on lookup,
    update keeps the position of the key. *)
Fixpoint lookup {A : Type} (k : string) (l : list (string * A)) : option A :=
  match l with
  | [] => None
  | (k', v) :: t => if String.eqb k k' then Some v else lookup k t
  end.

Fixpoint update {A : Type} (k : string) (v : A) (l : list (string * A))
  : list (string * A) :=
  match l with
  | [] => []
  | (k', v') :: t =>
      if String.eqb k k' then (k', v) :: t else (k', v') :: update k v t
  end.

Definition keys {A : Type} (l : list (string * A)) : list string := map fst l.

Definition set_non_persistent (m : Module) (s : list string) : Module :=
  Mod (cls m) s (export m) (parameters m) (buffers m) (attrs m) (modules m).

Definition set_export (m : Module) (b : bool) : Module :=
  Mod (cls m) (non_persistent_buffers_set m) (Some b) (parameters m) (buffers m)
      (attrs m) (modules m).

Definition set_modules (m : Module) (l : list (string * Module)) : Module :=
  Mod (cls m) (non_persistent_buffers_set m) (export m) (parameters m) (buffers m)
      (attrs m) l.

(** [m.<name> = child] for a name that is already a registered submodule. *)
Definition set_child (m : Module) (name : string) (child : Module) : Module :=
  set_modules m (update name child (modules m)).

(** ** Attribute access on modules *)

(** What [m.<name>] evaluates to. *)
Inductive Attr : Type :=
| AttrAtom (a : PyAtom)
| AttrTensor (t : Tensor)
| AttrModule (c : Module).

Definition no_attribute (m : Module) (name : string) : exn :=
  AttributeError
    ("'" ++ class_name (cls m) ++ "' object has no attribute '" ++ name ++ "'").

(** [m.<name>], for a name other than the two attributes kept apart: the
    attributes of the instance first, then [nn.Module.__getattr__], which
    looks into [_parameters], [_buffers] and [_modules], in this order, and
    raises when the name is in none of them. *)
Definition getattr (m : Module) (name : string) : exn + Attr :=
  match lookup name (attrs m) with
  | Some a => inr (AttrAtom a)
  | None =>
      match lookup name (parameters m) with
      | Some t => inr (AttrTensor t)
      | None =>
          match lookup name (buffers m) with
          | Some t => inr (AttrTensor t)
          | None =>
              match lookup name (modules m) with
              | Some c => inr (AttrModule c)
              | None => inl (no_attribute m name)
              end
          end
      end
  end.

(** [m.<name> = value] for a value that is neither a tensor nor a module nor
    [None]: [nn.Module.__setattr__] raises when the name is that of a
    parameter, of a submodule or of a buffer, which it tests in this order,
    and stores the value as a plain attribute otherwise.  [typename] is
    [torch.typename(value)]. *)
Definition setattr_refused (m : Module) (name typename : string) : option exn :=
  if existsb (String.eqb name) (keys (parameters m)) then
    Some (TypeError ("cannot assign '" ++ typename ++ "' as parameter '" ++ name
                     ++ "' (torch.nn.Parameter or None expected)"))
  else if existsb (String.eqb name) (keys (modules m)) then
    Some (TypeError ("cannot assign '" ++ typename ++ "' as child module '" ++ name
                     ++ "' (torch.nn.Module or None expected)"))
  else if existsb (String.eqb name) (keys (buffers m)) then
    Some (TypeError ("cannot assign '" ++ typename ++ "' as buffer '" ++ name
                     ++ "' (torch.Tensor or None expected)"))
  else None.

(** ** State dicts *)

(** Is the buffer called [name] part of the state of [m]? *)
Definition persistent (m : Module) (name : string) : bool :=
  negb (existsb (String.eqb name) (non_persistent_buffers_set m)).

(** What [module._save_to_state_dict] writes for the module itself: every
    parameter, then the buffers whose names are not in
    [_non_persistent_buffers_set]. *)
Definition own_state (m : Module) : list (string * Tensor) :=
  parameters m ++ filter (fun kv => persistent m (fst kv)) (buffers m).

(** [module.state_dict()]: own entries first, then the submodules' entries,
    each name prefixed by the dotted path. *)
Fixpoint state_dict_of (prefix : string) (m : Module) : StateDict :=
  map (fun kv => ((prefix ++ fst kv)%string, snd kv)) (own_state m)
  ++ flat_map (fun nc => state_dict_of (prefix ++ fst nc ++ ".")%string (snd nc))
              (modules m).

Definition state_dict (m : Model) : StateDict := state_dict_of "" (net m).

(** Every parameter and every buffer of the tree, persistent or not, under
    the names a state dict would give them. *)
Fixpoint tensors_of (prefix : string) (m : Module) : StateDict :=
  map (fun kv => ((prefix ++ fst kv)%string, snd kv)) (parameters m ++ buffers m)
  ++ flat_map (fun nc => tensors_of (prefix ++ fst nc ++ ".")%string (snd nc))
              (modules m).

(** [tensor.float()] *)
Definition tensor_float (t : Tensor) : Tensor :=
  match dtype t with
  | F16 | F32 | F64 => mkTensor (shape t) F32 (storage t)
  | I64 => t
  end.

(** [module.float()]: casts every floating-point parameter and buffer. *)
Fixpoint module_float (m : Module) : Module :=
  Mod (cls m) (non_persistent_buffers_set m) (export m)
      (map (fun kv => (fst kv, tensor_float (snd kv))) (parameters m))
      (map (fun kv => (fst kv, tensor_float (snd kv))) (buffers m))
      (attrs m)
      (map (fun nc => (fst nc, module_float (snd nc))) (modules m)).

Definition model_float (m : Model) : Model :=
  mkModel (module_float (net m)) (names m) (stride m) (yaml m).

(** ** Strict weight loading *)

Definition shape_eqb (a b : list Z) : bool :=
  if list_eq_dec Z.eq_dec a b then true else false.

(** Names of the target that the mapping does not bind. *)
Definition missing_keys (target sd : StateDict) : list string :=
  filter (fun k => match lookup k sd with None => true | Some _ => false end)
         (keys target).

(** Names of the mapping that the target does not have. *)
Definition unexpected_keys (target sd : StateDict) : list string :=
  filter (fun k => match lookup k target with None => true | Some _ => false end)
         (keys sd).

(** Names bound in both with different shapes. *)
Definition size_mismatches (target sd : StateDict) : list string :=
  keys (filter (fun kv => match lookup (fst kv) sd with
                          | Some t => negb (shape_eqb (shape t) (shape (snd kv)))
                          | None => false
                          end) target).

(** Copy of the mapping's tensors into the module tree: into the
    parameters and the persistent buffers, which are the entries of the
    state dict. *)
Fixpoint assign_state (prefix : string) (sd : StateDict) (m : Module) : Module :=
  let assign := fun kv : string * Tensor =>
    (fst kv, match lookup (prefix ++ fst kv)%string sd with
             | Some t => t
             | None => snd kv
             end) in
  Mod (cls m) (non_persistent_buffers_set m) (export m)
      (map assign (parameters m))
      (map (fun kv => if persistent m (fst kv) then assign kv else kv) (buffers m))
      (attrs m)
      (map (fun nc => (fst nc, assign_state (prefix ++ fst nc ++ ".")%string sd (snd nc)))
           (modules m)).

(** Modelled from the spec: [load_state_dict], the method that
    [models.yolo.Model] inherits from [torch.nn.Module], is not under src/.
    Section 4.1 step 5: every parameter name of the target model must be
    present with matching shape in the mapping, in exact correspondence, or
    the load fails (the error the spec calls WeightMismatchError is the
    [RuntimeError] of the module); nothing is loaded in part.  Without
    [strict], absent and extra names are tolerated. *)
Definition load_state_dict (m : Model) (sd : StateDict) (strict : bool)
  : exn + Model :=
  let target := state_dict m in
  let bad_names :=
    match missing_keys target sd, unexpected_keys target sd with
    | [], [] => false
    | _, _ => true
    end in
  let bad_shapes :=
    match size_mismatches target sd with [] => false | _ => true end in
  if (strict && bad_names) || bad_shapes
  then inl (RuntimeError "Error(s) in loading state_dict for Model")
  else inr (mkModel (assign_state "" sd (net m)) (names m) (stride m) (yaml m)).

(** ** The "Update model" statements (lines 86-96) *)

(** Line 88, for one module [m] of the traversal. *)
Definition clear_non_persistent (m : Module) : exn + Module :=
  match setattr_refused m "_non_persistent_buffers_set" "set" with
  | Some e => inl e
  | None => inr (set_non_persistent m [])
  end.

(** Lines 89-93, for one module [m] of the traversal.  The assignment
    [m.act = Hardswish()] replaces the submodule registered under that
    name. *)
Definition assign_activation (m : Module) : exn + Module :=
  if isinstance m ClsConv then
    match getattr m "act" with
    | inl e => inl e
    | inr (AttrModule act) =>
        if isinstance act ClsNNHardswish
        then inr (set_child m "act" (fresh_module ClsHardswish))
        else if isinstance act ClsNNSiLU
        then inr (set_child m "act" (fresh_module ClsSiLU))
        else inr m
    | inr _ => inr m
    end
  else inr m.

(** The generator's walk over [_modules]: each submodule in turn, up to the
    first exception. *)
Fixpoint visit_children (visit : Module -> option (exn + Module))
    (l : list (string * Module)) : option (exn + list (string * Module)) :=
  match l with
  | [] => Some (inr [])
  | (name, c) :: t =>
      match visit c with
      | None => None
      | Some (inl e) => Some (inl e)
      | Some (inr c') =>
          match visit_children visit t with
          | None => None
          | Some (inl e) => Some (inl e)
          | Some (inr t') => Some (inr ((name, c') :: t'))
          end
      end
  end.

(** [for k, m in model.named_modules(): ...] (lines 87-93).  The generator
    yields a module, the loop body runs on it, and only then does the
    generator walk that module's [_modules]: an activation assigned by the
    body is the one that is visited next.  [fuel] bounds the depth of the
    walk; [None] is "out of fuel". *)
Fixpoint named_modules_loop (fuel : nat) (m : Module) : option (exn + Module) :=
  match fuel with
  | O => None
  | S fuel' =>
      match clear_non_persistent m with
      | inl e => Some (inl e)
      | inr m0 =>
          match assign_activation m0 with
          | inl e => Some (inl e)
          | inr m1 =>
              match visit_children (named_modules_loop fuel') (modules m1) with
              | None => None
              | Some (inl e) => Some (inl e)
              | Some (inr l') => Some (inr (set_modules m1 l'))
              end
          end
      end
  end.

(** Depth of a module tree. *)
Fixpoint height (m : Module) : nat :=
  S ((fix children (l : list (string * Module)) : nat :=
        match l with
        | [] => 0
        | (_, c) :: t => Nat.max (height c) (children t)
        end) (modules m)).

(** [l[-1] = v] on an association list. *)
Definition set_last {A : Type} (l : list (string * A)) (v : A)
  : list (string * A) :=
  match rev l with
  | [] => []
  | (name, _) :: _ => removelast l ++ [(name, v)]
  end.

(** [str(n)] *)
Definition str_nat (n : nat) : string :=
  NilEmpty.string_of_uint (Nat.to_uint n).

Definition index_out_of_range : exn := IndexError "index -1 is out of range".

(** [seq[-1]] on a module, with the name under which the result is
    registered.  [nn.Sequential] takes the last of its submodules,
    [nn.ModuleList] the one registered as [str(len(seq) - 1)],
    [nn.ModuleDict] looks up the key [-1], and no other class can be
    subscripted. *)
Definition subscript_last (seq : Module) : exn + (string * Module) :=
  match cls seq with
  | ClsSequential =>
      match rev (modules seq) with
      | [] => inl index_out_of_range
      | nc :: _ => inr nc
      end
  | ClsModuleList =>
      match modules seq with
      | [] => inl index_out_of_range
      | _ :: _ =>
          let key := str_nat (length (modules seq) - 1) in
          match lookup key (modules seq) with
          | Some c => inr (key, c)
          | None => inl (KeyError ("'" ++ key ++ "'"))
          end
      end
  | ClsModuleDict => inl (KeyError "-1")
  | c => inl (TypeError ("'" ++ class_name c ++ "' object is not subscriptable"))
  end.

(** [_modules] of [seq] once the module that [seq[-1]] returned has become
    [v]. *)
Definition store_last (seq v : Module) : list (string * Module) :=
  match cls seq with
  | ClsModuleList => update (str_nat (length (modules seq) - 1)) v (modules seq)
  | _ => set_last (modules seq) v
  end.

(** [t[-1]] on a tensor raises when there is no first dimension or when it
    is empty. *)
Definition tensor_last_refused (t : Tensor) : option exn :=
  match shape t with
  | [] =>
      Some (IndexError
              ("invalid index of a 0-dim tensor. Use `tensor.item()` in Python "
               ++ "or `tensor.item<T>()` in C++ to convert a 0-dim tensor to a number"))
  | d :: _ =>
      if (d <=? 0)%Z
      then Some (IndexError "index -1 is out of bounds for dimension 0 with size 0")
      else None
  end.

(** [a[-1].export = ...] on a plain value always raises: only a string can
    be subscripted, and a string has no attribute to assign. *)
Definition atom_last_export (a : PyAtom) : exn :=
  match a with
  | AtomNone => TypeError "'NoneType' object is not subscriptable"
  | AtomBool _ => TypeError "'bool' object is not subscriptable"
  | AtomInt _ => TypeError "'int' object is not subscriptable"
  | AtomStr EmptyString => IndexError "string index out of range"
  | AtomStr _ => AttributeError "'str' object has no attribute 'export'"
  end.

(** [model.model[-1].export = not opt.grid] (line 96).  When [model.model]
    is a tensor, the attribute is set on the temporary that the subscript
    returns, and the model is left as it is. *)
Definition set_detect_export (root : Module) (grid : bool) : exn + Module :=
  match getattr root "model" with
  | inl e => inl e
  | inr (AttrAtom a) => inl (atom_last_export a)
  | inr (AttrTensor t) =>
      match tensor_last_refused t with
      | Some e => inl e
      | None => inr root
      end
  | inr (AttrModule seq) =>
      match subscript_last seq with
      | inl e => inl e
      | inr (_, last) =>
          match setattr_refused last "export" "bool" with
          | Some e => inl e
          | None =>
              inr (set_child root "model"
                     (set_modules seq
                        (store_last seq (set_export last (negb grid)))))
          end
      end
  end.

(** Lines 87-96 on the module tree. *)
Definition update_module_tree (grid : bool) (root : Module)
  : option (exn + Module) :=
  match named_modules_loop (height root) root with
  | None => None
  | Some (inl e) => Some (inl e)
  | Some (inr root1) => Some (set_detect_export root1 grid)
  end.

Definition update_model (grid : bool) (m : Model) : option (exn + Model) :=
  match update_module_tree grid (net m) with
  | None => None
  | Some (inl e) => Some (inl e)
  | Some (inr root') => Some (inr (mkModel root' (names m) (stride m) (yaml m)))
  end.

(** ** Command line options, checkpoints, recipes *)

(** [opt], as [argparse] builds it (lines 59-68). *)
Record Options : Type := mkOptions {
  weights : string;
  img_size : list Z;
  batch_size : Z;
  dynamic : bool;
  grid : bool;
  device : string;
  cfg : string;
  sparseml_recipe : option string
}.

(** Truth value of a [str]. *)
Definition str_truthy (s : string) : bool :=
  match s with EmptyString => false | _ => true end.

(** Truth value of a [str] or [None]. *)
Definition opt_truthy (o : option string) : bool :=
  match o with None => false | Some s => str_truthy s end.

(** [ckpt['model']]: a pickled model or a raw weight mapping. *)
Inductive Payload : Type :=
| PackagedModel (m : Model)
| RawWeights (sd : StateDict).

(** The [dict] that [torch.load] returns; [None] when it has no ['model']. *)
Record Checkpoint : Type := mkCheckpoint {
  ckpt_model : option Payload
}.

(** The argument of [Model(...)]: a path or an embedded yaml. *)
Inductive Cfg : Type :=
| CfgPath (path : string)
| CfgYaml (y : string).

Record QuantMod : Type := mkQuantMod {
  quant_name : string;
  enable_on_initialize : bool
}.

(** [ScheduledModifierManager] *)
Record Manager : Type := mkManager {
  quantization_modifiers : list QuantMod;
  other_modifiers : list string
}.

(** Value of the dry run [y = model(img)]: [None], a tensor, or a tuple or
    list of values. *)
Inductive PyVal : Type :=
| PyNone
| PyTensor (shape : list Z)
| PyTuple (items : list PyVal).

(** Keyword arguments of [torch.onnx.export] (lines 116-119). *)
Record OnnxExportArgs : Type := mkOnnxExportArgs {
  verbose : bool;
  opset_version : Z;
  input_names : list string;
  output_names : list string;
  dynamic_axes : option (list (string * list (Z * string)))
}.

(** What [torch.jit.trace] returns. *)
Record ScriptModule : Type := mkScriptModule {
  graph : string
}.

(** ** Traces *)

Inductive backend : Type := TorchScript | ONNX | CoreML.

(** What the script prints. *)
Inductive message : Type :=
| MsgOpt (o : Options)
| MsgStarting (b : backend) (version : string)
| MsgSuccess (b : backend) (f : string)
| MsgFailure (b : backend) (e : exn)
| MsgComplete.

(** Calls to collaborators, in the order they are made. *)
Inductive event : Type :=
| Print (m : message)
| CallSetLogging
| CallSelectDevice (device : string)
| CallAttemptDownload (weights : string)
| CallTorchLoad (weights : string)
| CallAttemptLoad (weights : string)
| CallModel (c : Cfg)
| CallFromYaml (recipe : string)
| CallInitialize (manager : Manager)
| CallLoadStateDict (strict : bool)
| CallFloat
| CallCheckImgSize (x gs : Z)
| CallTorchZeros (shape : list Z)
| CallForward
| CallJitTrace (strict : bool)
| CallTsSave (f : string)
| ImportOnnx
| CallOnnxExport (f : string) (args : OnnxExportArgs)
| CallModuleExporter (save_dir : string)
| CallExportOnnx (convert_qat : bool)
| CallSkipOnnxInputQuantize (src dst : string)
| CallOnnxLoad (f : string)
| CallCheckModel
| ImportCoremltools
| CallImageType (name : string) (shape : list Z)
| CallCtConvert
| CallMlSave (f : string).

(** ** Collaborators

    One field per external call of the script: what the call returns or
    raises, given its arguments.  [option exn] is for calls made for their
    effect: [None] is a normal return. *)
Record World : Type := mkWorld {
  torch_version : string;
  onnx_version : string;
  ct_version : string;
  select_device : string -> exn + string;
  attempt_download : string -> option exn;
  torch_load : string -> exn + Checkpoint;
  attempt_load : string -> exn + Model;
  Model_init : Cfg -> exn + Model;
  from_yaml : string -> exn + Manager;
  initialize : Manager -> Model -> exn + Model;
  check_img_size : Z -> Z -> exn + Z;
  torch_zeros : list Z -> exn + list Z;
  forward : Model -> list Z -> exn + PyVal;
  jit_trace : Model -> list Z -> exn + ScriptModule;
  ts_save : ScriptModule -> string -> option exn;
  import_onnx : option exn;
  onnx_export : Model -> list Z -> string -> OnnxExportArgs -> option exn;
  ModuleExporter : Model -> string -> option exn;
  export_onnx : Model -> list Z -> option exn;
  skip_onnx_input_quantize : string -> string -> option exn;
  onnx_load : string -> exn + string;
  check_model : string -> option exn;
  import_coremltools : option exn;
  ImageType : string -> list Z -> option exn;
  ct_convert : ScriptModule -> exn + string;
  ml_save : string -> string -> option exn
}.

(** ** The monad of Python statements *)

(** The part of the script's state that the control flow decides: the
    trace so far, and the global [ts], unbound ([None]) until line 103 has
    returned. *)
Record Frame : Type := mkFrame {
  trace : list event;
  ts : option ScriptModule
}.

Definition Py (A : Type) : Type := Frame -> (exn + A) * Frame.

Definition ret {A : Type} (a : A) : Py A := fun fr => (inr a, fr).

Definition raise {A : Type} (e : exn) : Py A := fun fr => (inl e, fr).

Definition bind {A B : Type} (c : Py A) (k : A -> Py B) : Py B :=
  fun fr =>
    match c fr with
    | (inl e, fr') => (inl e, fr')
    | (inr a, fr') => k a fr'
    end.

Notation "x <- c ;; k" := (bind c (fun x => k))
  (at level 61, c at next level, right associativity).
Notation "c ;;; k" := (bind c (fun _ => k))
  (at level 61, right associativity).

(** [try: body except Exception as e: handler(e)]: the handler runs in the
    state the body had reached when it raised. *)
Definition try_except {A : Type} (body : Py A) (handler : exn -> Py A) : Py A :=
  fun fr =>
    match body fr with
    | (inl e, fr') => handler e fr'
    | (inr a, fr') => (inr a, fr')
    end.

Definition emit (ev : event) : Py unit :=
  fun fr => (inr tt, mkFrame (trace fr ++ [ev]) (ts fr)).

Definition lift {A : Type} (r : exn + A) : Py A :=
  match r with inl e => raise e | inr a => ret a end.

(** A call for its value: logged, then it returns or raises. *)
Definition call {A : Type} (ev : event) (outcome : exn + A) : Py A :=
  emit ev ;;; lift outcome.

(** A call for its effect. *)
Definition call_ (ev : event) (outcome : option exn) : Py unit :=
  emit ev ;;; match outcome with Some e => raise e | None => ret tt end.

Definition print (m : message) : Py unit := emit (Print m).

(** [ts = v] *)
Definition bind_ts (v : ScriptModule) : Py unit :=
  fun fr => (inr tt, mkFrame (trace fr) (Some v)).

(** Evaluation of the name [ts]. *)
Definition read_ts : Py ScriptModule :=
  fun fr =>
    match ts fr with
    | Some v => (inr v, fr)
    | None => (inl (NameError "name 'ts' is not defined"), fr)
    end.

(** A list comprehension [[f(x) for x in l]]. *)
Fixpoint for_each {A B : Type} (f : A -> Py B) (l : list A) : Py (list B) :=
  match l with
  | [] => ret []
  | x :: t => y <- f x ;; ys <- for_each f t ;; ret (y :: ys)
  end.

(** A bounded recursion that ran out of fuel surfaces as Python's
    [RecursionError]. *)
Definition run_fuel {A : Type} (r : option (exn + A)) : Py A :=
  match r with
  | Some o => lift o
  | None => raise (OtherError "RecursionError" "maximum recursion depth exceeded")
  end.

Definition start : Frame := mkFrame [] None.

(** ** load_model (lines 29-55) *)

Definition no_module_message (o : Options) : string :=
  (weights o
   ++ " does not load a Module object and no Model cfg given to load into a Module")%string.

Definition recipe_conflict_message : string :=
  "--grid and --dynamic not supported for exports with sparsification".

(** [isinstance(ckpt['model'], nn.Module)] *)
Definition is_module (p : Payload) : bool :=
  match p with PackagedModel _ => true | RawWeights _ => false end.

(** [ckpt['model']] *)
Definition ckpt_getitem_model (ckpt : Checkpoint) : Py Payload :=
  match ckpt_model ckpt with
  | Some p => ret p
  | None => raise (KeyError "'model'")
  end.

(** [opt.cfg or ckpt['model'].yaml] *)
Definition cfg_or_yaml (o : Options) (p : Payload) : Py Cfg :=
  if str_truthy (cfg o) then ret (CfgPath (cfg o))
  else match p with
       | PackagedModel m => ret (CfgYaml (yaml m))
       | RawWeights _ =>
           raise (AttributeError "'collections.OrderedDict' object has no attribute 'yaml'")
       end.

(** [ckpt['model'].float().state_dict() if is_picked_model else ckpt['model']] *)
Definition checkpoint_state_dict (p : Payload) : StateDict :=
  match p with
  | PackagedModel m => state_dict (model_float m)
  | RawWeights sd => sd
  end.

(** Lines 49-50. *)
Definition enable_quantization (mgr : Manager) : Manager :=
  mkManager
    (map (fun q => mkQuantMod (quant_name q) true) (quantization_modifiers mgr))
    (other_modifiers mgr).

(** Lines 44-51. *)
Definition apply_recipe (w : World) (o : Options) (model : Model) : Py Model :=
  match sparseml_recipe o with
  | Some recipe =>
      if str_truthy recipe then
        if existsb (fun b => b) [grid o; dynamic o]
        then raise (ValueError recipe_conflict_message)
        else
          manager <- call (CallFromYaml recipe) (from_yaml w recipe) ;;
          let manager := enable_quantization manager in
          call (CallInitialize manager) (initialize w manager model)
      else ret model
  | None => ret model
  end.

(** Lines 30-42: the checkpoint, the model instance and the weight mapping
    that will be loaded into it. *)
Definition resolve_checkpoint (w : World) (o : Options) : Py (Model * StateDict) :=
  call_ (CallAttemptDownload (weights o)) (attempt_download w (weights o)) ;;;
  ckpt <- call (CallTorchLoad (weights o)) (torch_load w (weights o)) ;;
  payload <- ckpt_getitem_model ckpt ;;
  let is_picked_model := is_module payload in
  if negb is_picked_model && negb (str_truthy (cfg o))
  then raise (ValueError (no_module_message o))
  else
    if is_picked_model && negb (str_truthy (cfg o))
    then
      model <- call (CallAttemptLoad (weights o)) (attempt_load w (weights o)) ;;
      ret (model, state_dict model)
    else
      c <- cfg_or_yaml o payload ;;
      model <- call (CallModel c) (Model_init w c) ;;
      ret (model, checkpoint_state_dict payload).

(** Lines 29-55. *)
Definition load_model (w : World) (o : Options) (dev : string) : Py Model :=
  ms <- resolve_checkpoint w o ;;
  model <- apply_recipe w o (fst ms) ;;
  model <- call (CallLoadStateDict true) (load_state_dict model (snd ms) true) ;;
  emit CallFloat ;;;
  ret (model_float model).

(** ** The script body (lines 58-152) *)

(** [opt.img_size *= 2 if len(opt.img_size) == 1 else 1]: list repetition. *)
Fixpoint list_mul {A : Type} (l : list A) (n : nat) : list A :=
  match n with
  | O => []
  | S k => l ++ list_mul l k
  end.

Definition expand (img_size : list Z) : list Z :=
  list_mul img_size (if Nat.eqb (length img_size) 1 then 2 else 1).

Definition set_img_size (o : Options) (l : list Z) : Options :=
  mkOptions (weights o) l (batch_size o) (dynamic o) (grid o) (device o) (cfg o)
            (sparseml_recipe o).

(** [int(max(model.stride))] *)
Definition max_stride (s : list Z) : Py Z :=
  match s with
  | [] => raise (ValueError "max() arg is an empty sequence")
  | x :: t => ret (fold_left Z.max t x)
  end.

(** [output_names=['classes', 'boxes'] if y is None else ['output']] *)
Definition onnx_output_names (y : PyVal) : list string :=
  match y with
  | PyNone => ["classes"; "boxes"]
  | _ => ["output"]
  end.

(** Lines 116-119: the keyword arguments of the standard ONNX export. *)
Definition onnx_export_args (o : Options) (y : PyVal) : OnnxExportArgs :=
  mkOnnxExportArgs false 12 ["images"] (onnx_output_names y)
    (if dynamic o
     then Some [("images", [(0, "batch"); (2, "height"); (3, "width")]);
                ("output", [(0, "batch"); (2, "y"); (3, "x")])]%Z
     else None).

(** Lines 100-107. *)
Definition torchscript_block (w : World) (o : Options) (model : Model)
    (img : list Z) : Py unit :=
  try_except
    (print (MsgStarting TorchScript (torch_version w)) ;;;
     let f := torchscript_filename (weights o) in
     traced <- call (CallJitTrace false) (jit_trace w model img) ;;
     bind_ts traced ;;;
     t <- read_ts ;;
     call_ (CallTsSave f) (ts_save w t f) ;;;
     print (MsgSuccess TorchScript f))
    (fun e => print (MsgFailure TorchScript e)).

(** Lines 110-136. *)
Definition onnx_block (w : World) (o : Options) (model : Model)
    (img : list Z) (y : PyVal) : Py unit :=
  try_except
    (call_ ImportOnnx (import_onnx w) ;;;
     print (MsgStarting ONNX (onnx_version w)) ;;;
     let f := onnx_filename (weights o) in
     (if negb (opt_truthy (sparseml_recipe o))
      then
        call_ (CallOnnxExport f (onnx_export_args o y))
              (onnx_export w model img f (onnx_export_args o y))
      else
        let save_dir := PyStr.join "/" (removelast (PyStr.split f "/")) in
        call_ (CallModuleExporter save_dir) (ModuleExporter w model save_dir) ;;;
        call_ (CallExportOnnx true) (export_onnx w model img) ;;;
        try_except
          (call_ (CallSkipOnnxInputQuantize f f) (skip_onnx_input_quantize w f f))
          (fun _ => ret tt)) ;;;
     onnx_model <- call (CallOnnxLoad f) (onnx_load w f) ;;
     call_ CallCheckModel (check_model w onnx_model) ;;;
     print (MsgSuccess ONNX f))
    (fun e => print (MsgFailure ONNX e)).

(** Lines 139-149.  The arguments of [ct.convert] are evaluated left to
    right: the name [ts] first, then the [ct.ImageType(...)] call (scale
    1/255, zero bias), then the conversion itself. *)
Definition coreml_block (w : World) (o : Options) (img : list Z) : Py unit :=
  try_except
    (call_ ImportCoremltools (import_coremltools w) ;;;
     print (MsgStarting CoreML (ct_version w)) ;;;
     t <- read_ts ;;
     call_ (CallImageType "image" img) (ImageType w "image" img) ;;;
     mlmodel <- call CallCtConvert (ct_convert w t) ;;
     let f := coreml_filename (weights o) in
     call_ (CallMlSave f) (ml_save w mlmodel f) ;;;
     print (MsgSuccess CoreML f))
    (fun e => print (MsgFailure CoreML e)).

(** Lines 99-149: the three export blocks, in order. *)
Definition export_backends (w : World) (o : Options) (model : Model)
    (img : list Z) (y : PyVal) : Py unit :=
  torchscript_block w o model img ;;;
  onnx_block w o model img y ;;;
  coreml_block w o img.

(** Lines 68-152, from the parsed options on. *)
Definition main (w : World) (o : Options) : Py unit :=
  let o := set_img_size o (expand (img_size o)) in
  print (MsgOpt o) ;;;
  emit CallSetLogging ;;;
  dev <- call (CallSelectDevice (device o)) (select_device w (device o)) ;;
  model <- load_model w o dev ;;
  gs <- max_stride (stride model) ;;
  sizes <- for_each (fun x => call (CallCheckImgSize x gs) (check_img_size w x gs))
                    (img_size o) ;;
  let o := set_img_size o sizes in
  let shape := batch_size o :: 3%Z :: img_size o in
  img <- call (CallTorchZeros shape) (torch_zeros w shape) ;;
  model <- run_fuel (update_model (grid o) model) ;;
  y <- call CallForward (forward w model img) ;;
  export_backends w o model img y ;;;
  print MsgComplete.

(** ** Observations on traces *)

Inductive status : Type :=
| Success (output_path : string)
| Failed (error_detail : string).

(** One backend's report: what its block printed last. *)
Record ExportResult : Type := mkExportResult {
  backend_name : backend;
  result_status : status
}.

(** The reports of a trace, in the order they were printed. *)
Fixpoint results (tr : list event) : list ExportResult :=
  match tr with
  | [] => []
  | Print (MsgSuccess b f) :: t => mkExportResult b (Success f) :: results t
  | Print (MsgFailure b e) :: t => mkExportResult b (Failed (exn_str e)) :: results t
  | _ :: t => results t
  end.

Definition backend_str (b : backend) : string :=
  match b with TorchScript => "TorchScript" | ONNX => "ONNX" | CoreML => "CoreML" end.

(** The text of the success and failure lines. *)
Definition render_result (r : ExportResult) : string :=
  match result_status r with
  | Success f => (backend_str (backend_name r) ++ " export success, saved as " ++ f)%string
  | Failed d => (backend_str (backend_name r) ++ " export failure: " ++ d)%string
  end.

(** Trace and outcome of a computation run from the start of the script. *)
Definition run_trace {A : Type} (c : Py A) : list event := trace (snd (c start)).
Definition run_outcome {A : Type} (c : Py A) : exn + A := fst (c start).

(** Kinds of events. *)
Definition is_load (ev : event) : bool :=
  match ev with CallLoadStateDict _ => true | _ => false end.

Definition is_recipe (ev : event) : bool :=
  match ev with CallFromYaml _ | CallInitialize _ => true | _ => false end.

Definition is_resolve (ev : event) : bool :=
  match ev with
  | CallAttemptDownload _ | CallTorchLoad _ | CallAttemptLoad _ | CallModel _ => true
  | _ => false
  end.

Definition is_check (ev : event) : bool :=
  match ev with CallCheckImgSize _ _ => true | _ => false end.

Definition is_zeros (ev : event) : bool :=
  match ev with CallTorchZeros _ => true | _ => false end.

(** [c] extends the trace, from any state, with events that all satisfy
    [P]. *)
Definition emits_only {A : Type} (P : event -> bool) (c : Py A) : Prop :=
  forall fr, exists tr',
    trace (snd (c fr)) = trace fr ++ tr' /\ forallb P tr' = true.

(** ** Observations on module trees *)

(** The submodule at a dotted path, [[]] being the module itself. *)
Fixpoint get (m : Module) (p : list string) : option Module :=
  match p with
  | [] => Some m
  | name :: p' =>
      match lookup name (modules m) with
      | Some c => get c p'
      | None => None
      end
  end.

(** [isinstance(a, nn.Hardswish) or isinstance(a, nn.SiLU)] *)
Definition is_nn_activation (a : Module) : bool :=
  isinstance a ClsNNHardswish || isinstance a ClsNNSiLU.

(** What lines 90-93 leave in [m.act]. *)
Definition export_friendly (a : Module) : Module :=
  if isinstance a ClsNNHardswish then fresh_module ClsHardswish
  else if isinstance a ClsNNSiLU then fresh_module ClsSiLU
  else a.

Fixpoint nodupb (l : list string) : bool :=
  match l with
  | [] => true
  | x :: t => negb (existsb (String.eqb x) t) && nodupb t
  end.

(** Does [m.act] evaluate to a module? *)
Definition act_is_module (m : Module) : bool :=
  match getattr m "act" with inr (AttrModule _) => true | _ => false end.

(** Can [_non_persistent_buffers_set] and [export] be assigned on [m]? *)
Definition assignable (m : Module) : bool :=
  match setattr_refused m "_non_persistent_buffers_set" "set",
        setattr_refused m "export" "bool" with
  | None, None => true
  | _, _ => false
  end.

(** Has [m] neither parameters nor buffers nor submodules? *)
Definition is_leaf (m : Module) : bool :=
  match parameters m, buffers m, modules m with
  | [], [], [] => true
  | _, _, _ => false
  end.

(** What holds of every module tree that PyTorch and [models.common] build:
    [_modules] is a dict (no name twice); the [act] of a [Conv] is a
    module; [nn.Hardswish] and [nn.SiLU] have neither parameters nor
    buffers nor submodules; and no parameter, buffer or submodule goes by
    the name of one of the two attributes that the script assigns. *)
Fixpoint well_formed (m : Module) : bool :=
  nodupb (keys (modules m))
  && (if isinstance m ClsConv then act_is_module m else true)
  && (if is_nn_activation m then is_leaf m else true)
  && assignable m
  && forallb (fun nc => well_formed (snd nc)) (modules m).

(** The path of [model.model[-1]], when it is a module. *)
Definition terminal_path (root : Module) : option (list string) :=
  match getattr root "model" with
  | inr (AttrModule seq) =>
      match subscript_last seq with
      | inr (name, _) => Some ["model"; name]
      | inl _ => None
      end
  | _ => None
  end.

(** Does [p] lead to the [act] of a [Conv], of class [nn.Hardswish] or
    [nn.SiLU]? *)
Fixpoint replaced_activation (m : Module) (p : list string) : bool :=
  match p with
  | [] => false
  | name :: p' =>
      match lookup name (modules m) with
      | Some c =>
          match p' with
          | [] => isinstance m ClsConv && String.eqb "act" name && is_nn_activation c
          | _ :: _ => replaced_activation c p'
          end
      | None => false
      end
  end.

Definition path_eqb (p q : list string) : bool :=
  if list_eq_dec String.string_dec p q then true else false.

(** The traversal of lines 87-93 without fuel, for trees where it does not
    raise: every [_non_persistent_buffers_set] emptied, the [act] of each
    [Conv] made export-friendly. *)
Fixpoint walk (m : Module) : Module :=
  Mod (cls m) [] (export m) (parameters m) (buffers m) (attrs m)
      (map (fun nc =>
              (fst nc,
               if isinstance m ClsConv && String.eqb "act" (fst nc)
                  && is_nn_activation (snd nc)
               then export_friendly (snd nc)
               else walk (snd nc)))
           (modules m)).

(** ** Sample inputs *)

Module Sample.

Definition weight (sh : list Z) : Tensor := mkTensor sh F32 [].

Definition leaf (c : ModClass) : Module :=
  Mod c [] None [] [] [("training", AtomBool false)] [].

(** A [models.common.Conv]: convolution, batch norm, activation.  The
    batch norm has a buffer that is not part of its state. *)
Definition conv (act_cls : ModClass) : Module :=
  Mod ClsConv [] None [] [] [("training", AtomBool false)]
      [("conv", Mod (ClsOther "Conv2d") [] None
                    [("weight", weight [16; 3; 3; 3]%Z)] []
                    [("training", AtomBool false)] []);
       ("bn", Mod (ClsOther "BatchNorm2d") ["scratch"] None
                  [("weight", weight [16%Z]); ("bias", weight [16%Z])]
                  [("running_mean", weight [16%Z]); ("scratch", weight [16%Z])]
                  [("training", AtomBool false)] []);
       ("act", leaf act_cls)].

Definition detect : Module :=
  Mod ClsDetect [] (Some false) [] [("anchors", weight [3; 3; 2]%Z)]
      [("nc", AtomInt 3); ("training", AtomBool false)] [].

Definition network : Module :=
  Mod ClsModel [] None [] [] [("training", AtomBool false)]
      [("model",
        Mod ClsSequential [] None [] [] [("training", AtomBool false)]
            [("0", conv ClsNNHardswish);
             ("1", conv ClsNNSiLU);
             ("2", conv (ClsOther "LeakyReLU"));
             ("3", detect)])].

Definition model : Model :=
  mkModel network ["person"; "car"; "dog"] [8; 16; 32]%Z "yolov3.yaml".

Definition options : Options :=
  mkOptions "./yolov3.pt" [416%Z] 1 false false "cpu" "" None.

Definition with_recipe (o : Options) (dyn grd : bool) : Options :=
  mkOptions (weights o) (img_size o) (batch_size o) dyn grd (device o) (cfg o)
            (Some "recipe.yaml").

Definition manager : Manager :=
  mkManager [mkQuantMod "quantize" false] ["prune"].

Definition classes_boxes : PyVal :=
  PyTuple [PyTensor [1; 10647; 3]%Z; PyTensor [1; 10647; 4]%Z].

(** A world where every collaborator succeeds, but for the four outcomes
    given as arguments. *)
Definition world_with (payload : Payload) (y : PyVal)
    (traced : exn + ScriptModule) (saved : option exn) : World :=
  {| torch_version := "1.7.0";
     onnx_version := "1.8.0";
     ct_version := "4.0";
     select_device := fun d => inr d;
     attempt_download := fun _ => None;
     torch_load := fun _ => inr (mkCheckpoint (Some payload));
     attempt_load := fun _ => inr model;
     Model_init := fun _ => inr model;
     from_yaml := fun _ => inr manager;
     initialize := fun _ m => inr m;
     check_img_size := fun x gs => inr ((x + gs - 1) / gs * gs)%Z;
     torch_zeros := fun s => inr s;
     forward := fun _ _ => inr y;
     jit_trace := fun _ _ => traced;
     ts_save := fun _ _ => saved;
     import_onnx := None;
     onnx_export := fun _ _ _ _ => None;
     ModuleExporter := fun _ _ => None;
     export_onnx := fun _ _ => None;
     skip_onnx_input_quantize := fun _ _ => None;
     onnx_load := fun f => inr f;
     check_model := fun _ => None;
     import_coremltools := None;
     ImageType := fun _ _ => None;
     ct_convert := fun _ => inr "mlmodel";
     ml_save := fun _ _ => None |}.

Definition world : World :=
  world_with (PackagedModel model) (PyTensor [1; 10647; 8]%Z)
             (inr (mkScriptModule "graph")) None.

(** A raw checkpoint that binds every name of [model] but the last
    ("model.3.anchors"), and the options that load it with a cfg. *)
Definition all_but_anchors : StateDict := removelast (state_dict model).

Definition options_cfg : Options :=
  mkOptions "./yolov3.pt" [416%Z] 1 false false "cpu" "models/yolov3.yaml" None.

End Sample.

(** ** Further observations *)

(** [save_dir = "/".join(f.split("/")[:-1])] (line 121) *)
Definition onnx_save_dir (f : string) : string :=
  PyStr.join "/" (removelast (PyStr.split f "/")).

(** [save_name = f.split("/")[-1]] (line 122) *)
Definition onnx_save_name (f : string) : string :=
  last (PyStr.split f "/") EmptyString.



(** The state of the script when it calls [load_model]. *)
Definition before_load (o : Options) : Frame :=
  mkFrame [Print (MsgOpt o); CallSetLogging; CallSelectDevice (device o)] None.

(** [opt] with other values of [--dynamic] and [--grid]. *)
Definition set_flags (o : Options) (dyn grd : bool) : Options :=
  mkOptions (weights o) (img_size o) (batch_size o) dyn grd (device o) (cfg o)
            (sparseml_recipe o).

(** Is the tensor of a type that [float()] leaves alone? *)
Definition is_full_precision (t : Tensor) : bool :=
  match dtype t with F32 | I64 => true | F16 | F64 => false end.

(** Where the model instance of [load_model] may come from. *)
Definition constructor_allowed (o : Options) (ev : event) : bool :=
  match ev with
  | CallModel (CfgPath p) => String.eqb p (cfg o) && str_truthy (cfg o)
  | CallModel (CfgYaml _) => false
  | CallAttemptLoad p => String.eqb p (weights o) && negb (str_truthy (cfg o))
  | _ => true
  end.

(** A world whose download behaves as given, and which is [w] otherwise. *)
Definition set_attempt_download (w : World) (d : string -> option exn) : World :=
  {| torch_version := torch_version w;
     onnx_version := onnx_version w;
     ct_version := ct_version w;
     select_device := select_device w;
     attempt_download := d;
     torch_load := torch_load w;
     attempt_load := attempt_load w;
     Model_init := Model_init w;
     from_yaml := from_yaml w;
     initialize := initialize w;
     check_img_size := check_img_size w;
     torch_zeros := torch_zeros w;
     forward := forward w;
     jit_trace := jit_trace w;
     ts_save := ts_save w;
     import_onnx := import_onnx w;
     onnx_export := onnx_export w;
     ModuleExporter := ModuleExporter w;
     export_onnx := export_onnx w;
     skip_onnx_input_quantize := skip_onnx_input_quantize w;
     onnx_load := onnx_load w;
     check_model := check_model w;
     import_coremltools := import_coremltools w;
     ImageType := ImageType w;
     ct_convert := ct_convert w;
     ml_save := ml_save w |}.

(** Events of the quantization-aware ONNX path (lines 121-128). *)
Definition is_qat_export (ev : event) : bool :=
  match ev with
  | CallModuleExporter _ | CallExportOnnx _ | CallSkipOnnxInputQuantize _ _ => true
  | _ => false
  end.

(** The call of line 116. *)
Definition is_standard_export (ev : event) : bool :=
  match ev with CallOnnxExport _ _ => true | _ => false end.

(** Events of the export blocks and of the end of the script. *)
Definition is_export_event (ev : event) : bool :=
  match ev with
  | Print (MsgOpt _) => false
  | Print _ => true
  | CallJitTrace _ | CallTsSave _ | ImportOnnx | CallOnnxExport _ _
  | CallModuleExporter _ | CallExportOnnx _ | CallSkipOnnxInputQuantize _ _
  | CallOnnxLoad _ | CallCheckModel | ImportCoremltools | CallImageType _ _
  | CallCtConvert | CallMlSave _ => true
  | _ => false
  end.

(** A run of the script from [fr] on either raises, having emitted no event
    of the export blocks, or returns, having emitted the dry run, then the
    events of the three blocks, one report each, and the closing line. *)
Definition fatal_or_complete (c : Py unit) : Prop :=
  forall fr, exists pre,
    forallb (fun ev => negb (is_export_event ev)) pre = true
    /\ ((exists e, fst (c fr) = inl e /\ trace (snd (c fr)) = trace fr ++ pre)
        \/ (exists tb s1 s2 s3,
              fst (c fr) = inr tt
              /\ In CallForward pre
              /\ trace (snd (c fr)) = trace fr ++ pre ++ tb ++ [Print MsgComplete]
              /\ results tb = [mkExportResult TorchScript s1;
                               mkExportResult ONNX s2;
                               mkExportResult CoreML s3])).

(** [c] emits events that satisfy [E] and returns values that satisfy
    [Q]. *)
Definition hoare {A : Type} (E : event -> Prop) (Q : A -> Prop) (c : Py A) : Prop :=
  forall fr, exists t,
    trace (snd (c fr)) = trace fr ++ t
    /\ Forall E t
    /\ (forall a, fst (c fr) = inr a -> Q a).

(** * Properties *)

Example replace_default :
  torchscript_filename "./yolov3.pt" = "./yolov3.torchscript.pt"
  /\ onnx_filename "./yolov3.pt" = "./yolov3.onnx"
  /\ coreml_filename "./yolov3.pt" = "./yolov3.mlmodel".
Proof. repeat split; reflexivity. Qed.

Example main_sample_results :
  run_outcome (main Sample.world Sample.options) = inr tt
  /\ results (run_trace (main Sample.world Sample.options))
     = [mkExportResult TorchScript (Success "./yolov3.torchscript.pt");
        mkExportResult ONNX (Success "./yolov3.onnx");
        mkExportResult CoreML (Success "./yolov3.mlmodel")].
Proof. split; vm_compute; reflexivity. Qed.

(** ** Symbolic execution of [Py] computations *)

Ltac py_unfold :=
  unfold run_outcome, run_trace, call, call_, print, emit, lift, bind_ts,
    read_ts, run_fuel, try_except, bind, ret, raise, start in *.

Ltac py_simpl := py_unfold; cbn [fst snd trace ts app] in *.

Ltac blk := cbn [fst snd trace ts app negb].

(** ** Checkpoint resolution *)

Lemma resolve_raw_without_cfg (w : World) (o : Options) (ckpt : Checkpoint)
    (sd : StateDict) (fr : Frame) :
  attempt_download w (weights o) = None ->
  torch_load w (weights o) = inr ckpt ->
  ckpt_model ckpt = Some (RawWeights sd) ->
  cfg o = "" ->
  resolve_checkpoint w o fr
  = (inl (ValueError (no_module_message o)),
     mkFrame (trace fr ++ [CallAttemptDownload (weights o);
                           CallTorchLoad (weights o)]) (ts fr)).
Proof.
  intros Hd Hl Hm Hc.
  unfold resolve_checkpoint, ckpt_getitem_model. py_simpl.
  rewrite Hd, Hl. cbn. rewrite Hm, Hc. cbn.
  rewrite <- app_assoc. reflexivity.
Qed.

(** C6. A checkpoint whose ['model'] entry is a raw weight mapping, loaded
    with no [--cfg], makes [load_model] raise the [ValueError] of line 35
    (the spec's ConfigurationError), whose message says that the file does
    not load a Module and that no cfg was given; the only collaborators
    called are the download and [torch.load], so that no model is
    constructed. *)
Theorem C6_raw_checkpoint_needs_cfg (w : World) (o : Options) (dev : string)
    (ckpt : Checkpoint) (sd : StateDict) :
  attempt_download w (weights o) = None ->
  torch_load w (weights o) = inr ckpt ->
  ckpt_model ckpt = Some (RawWeights sd) ->
  cfg o = "" ->
  run_outcome (load_model w o dev)
  = inl (ValueError
           (weights o
            ++ " does not load a Module object and no Model cfg given to load into a Module")%string)
  /\ run_trace (load_model w o dev)
     = [CallAttemptDownload (weights o); CallTorchLoad (weights o)]
  /\ ~ In (CallAttemptLoad (weights o)) (run_trace (load_model w o dev))
  /\ (forall c, ~ In (CallModel c) (run_trace (load_model w o dev))).
Proof.
  intros Hd Hl Hm Hc.
  assert (E : load_model w o dev start
              = (inl (ValueError (no_module_message o)),
                 mkFrame [CallAttemptDownload (weights o);
                          CallTorchLoad (weights o)] None)).
  { unfold load_model, bind.
    rewrite (resolve_raw_without_cfg w o ckpt sd start Hd Hl Hm Hc).
    reflexivity. }
  unfold run_outcome, run_trace. rewrite E. cbn [fst snd trace].
  repeat split; try reflexivity.
  - intros [H | [H | []]]; discriminate H.
  - intros c [H | [H | []]]; discriminate H.
Qed.

Lemma C6_witness :
  run_outcome
    (load_model (Sample.world_with (RawWeights []) PyNone
                   (inl (RuntimeError "trace")) None)
                Sample.options "cpu")
  = inl (ValueError
           "./yolov3.pt does not load a Module object and no Model cfg given to load into a Module").
Proof.
  apply (C6_raw_checkpoint_needs_cfg
           (Sample.world_with (RawWeights []) PyNone
              (inl (RuntimeError "trace")) None)
           Sample.options "cpu" (mkCheckpoint (Some (RawWeights []))) []);
    reflexivity.
Defined.

(** When the resolution of lines 30-42 returns, it has downloaded the
    weights, deserialized the checkpoint and obtained one model instance, in
    that order, and done nothing else. *)
Lemma resolve_checkpoint_returns (w : World) (o : Options) (fr fr1 : Frame)
    (model : Model) (sd : StateDict) :
  resolve_checkpoint w o fr = (inr (model, sd), fr1) ->
  ts fr1 = ts fr
  /\ exists construct,
      trace fr1 = trace fr ++ [CallAttemptDownload (weights o);
                               CallTorchLoad (weights o); construct]
      /\ (construct = CallAttemptLoad (weights o)
          \/ exists c, construct = CallModel c).
Proof.
  unfold resolve_checkpoint, ckpt_getitem_model, cfg_or_yaml. py_simpl.
  destruct (attempt_download w (weights o)); [discriminate |].
  destruct (torch_load w (weights o)) as [e | ckpt]; [discriminate |].
  destruct (ckpt_model ckpt) as [[pm | raw] |]; cbn;
    destruct (str_truthy (cfg o)); cbn; try discriminate.
  - destruct (Model_init w (CfgPath (cfg o))); [discriminate |].
    intros H; inversion H; subst; cbn. split; [reflexivity |].
    eexists; split; [repeat rewrite <- app_assoc; reflexivity |].
    right; eexists; reflexivity.
  - destruct (attempt_load w (weights o)); [discriminate |].
    intros H; inversion H; subst; cbn. split; [reflexivity |].
    eexists; split; [repeat rewrite <- app_assoc; reflexivity |].
    left; reflexivity.
  - destruct (Model_init w (CfgPath (cfg o))); [discriminate |].
    intros H; inversion H; subst; cbn. split; [reflexivity |].
    eexists; split; [repeat rewrite <- app_assoc; reflexivity |].
    right; eexists; reflexivity.
Qed.

(** ** Recipe and export flags *)

(** C1, as the code has it. With a recipe configured and [--dynamic] or
    [--grid] set, [load_model] raises the [ValueError] of line 47 once the
    resolution of lines 30-42 has returned: the weights have been
    downloaded, the checkpoint deserialized and a model instance obtained,
    and nothing happens after that: the recipe is not read or applied and no
    weights are loaded. *)
Theorem C1_recipe_conflict_after_resolution (w : World) (o : Options)
    (dev : string) (model : Model) (sd : StateDict) (fr1 : Frame) :
  opt_truthy (sparseml_recipe o) = true ->
  grid o || dynamic o = true ->
  resolve_checkpoint w o start = (inr (model, sd), fr1) ->
  load_model w o dev start
  = (inl (ValueError "--grid and --dynamic not supported for exports with sparsification"),
     fr1)
  /\ exists construct,
      trace fr1 = [CallAttemptDownload (weights o); CallTorchLoad (weights o);
                   construct]
      /\ (construct = CallAttemptLoad (weights o)
          \/ exists c, construct = CallModel c).
Proof.
  intros Hr Hf Hres. split.
  - unfold load_model, bind. rewrite Hres. cbn [fst snd].
    unfold apply_recipe. unfold opt_truthy in Hr.
    destruct (sparseml_recipe o) as [recipe |]; [| discriminate].
    rewrite Hr. cbn [existsb]. rewrite orb_false_r, Hf. reflexivity.
  - destruct (resolve_checkpoint_returns w o start fr1 model sd Hres)
      as [_ [construct [Ht Hc]]].
    exists construct. split; assumption.
Qed.

Lemma C1_witness :
  load_model Sample.world (Sample.with_recipe Sample.options true false) "cpu" start
  = (inl (ValueError "--grid and --dynamic not supported for exports with sparsification"),
     mkFrame [CallAttemptDownload "./yolov3.pt"; CallTorchLoad "./yolov3.pt";
              CallAttemptLoad "./yolov3.pt"] None).
Proof.
  apply (C1_recipe_conflict_after_resolution Sample.world
           (Sample.with_recipe Sample.options true false) "cpu"
           Sample.model (state_dict Sample.model)); reflexivity.
Defined.

(** C1, as the spec states it, fails: at this input the error is raised
    only after the download, [torch.load] and [attempt_load] have run. *)
Lemma C1_counterexample :
  let o := Sample.with_recipe Sample.options true false in
  sparseml_recipe o = Some "recipe.yaml"
  /\ dynamic o = true
  /\ run_outcome (load_model Sample.world o "cpu")
     = inl (ValueError "--grid and --dynamic not supported for exports with sparsification")
  /\ run_trace (load_model Sample.world o "cpu")
     = [CallAttemptDownload "./yolov3.pt"; CallTorchLoad "./yolov3.pt";
        CallAttemptLoad "./yolov3.pt"].
Proof. repeat split. Qed.

(** ** The three export blocks *)

Lemma results_app (a b : list event) : results (a ++ b) = results a ++ results b.
Proof.
  induction a as [| ev a IH]; [reflexivity |].
  destruct ev as [m | | | | | | | | | | | | | | | | | | | | | | | | | | ];
    cbn; try exact IH.
  destruct m; cbn; rewrite ?IH; reflexivity.
Qed.

Ltac norm_app := repeat rewrite <- app_assoc; cbn [app].

(** Lines 100-107, case by case: tracing fails; tracing succeeds and saving
    fails ([ts] stays bound); both succeed. *)
Lemma torchscript_block_eq (w : World) (o : Options) (model : Model)
    (img : list Z) (fr : Frame) :
  torchscript_block w o model img fr
  = let f := torchscript_filename (weights o) in
    let starting := Print (MsgStarting TorchScript (torch_version w)) in
    match jit_trace w model img with
    | inl e =>
        (inr tt,
         mkFrame (trace fr ++ [starting; CallJitTrace false;
                               Print (MsgFailure TorchScript e)]) (ts fr))
    | inr t =>
        match ts_save w t f with
        | Some e =>
            (inr tt,
             mkFrame (trace fr ++ [starting; CallJitTrace false; CallTsSave f;
                                   Print (MsgFailure TorchScript e)]) (Some t))
        | None =>
            (inr tt,
             mkFrame (trace fr ++ [starting; CallJitTrace false; CallTsSave f;
                                   Print (MsgSuccess TorchScript f)]) (Some t))
        end
    end.
Proof.
  unfold torchscript_block. py_simpl.
  destruct (jit_trace w model img) as [e | t]; cbn; norm_app; [reflexivity |].
  destruct (ts_save w t _); cbn; norm_app; reflexivity.
Qed.

(** What every run of the ONNX block has in common: it returns normally,
    leaves [ts] alone, starts with [import onnx], reports once, and never
    calls the CoreML converter. *)
Lemma onnx_block_spec (w : World) (o : Options) (model : Model)
    (img : list Z) (y : PyVal) (fr : Frame) :
  exists tr' st,
    onnx_block w o model img y fr = (inr tt, mkFrame (trace fr ++ ImportOnnx :: tr') (ts fr))
    /\ results tr' = [mkExportResult ONNX st]
    /\ ~ In CallCtConvert tr'.
Proof.
  unfold onnx_block. py_simpl.
  destruct (import_onnx w) as [e |]; cbn.
  { eexists; eexists; split; [norm_app; reflexivity |].
    split; [reflexivity |]. intros [H | []]; discriminate H. }
  destruct (negb (opt_truthy (sparseml_recipe o))); cbn.
  - destruct (onnx_export w model img _ _); cbn;
      [| destruct (onnx_load w _) as [e | om]; cbn;
         [| destruct (check_model w om); cbn ]];
      (eexists; eexists; split; [norm_app; reflexivity |];
       split; [reflexivity |];
       cbn; intros H; repeat (destruct H as [H | H]; [discriminate H |]);
       exact H).
  - destruct (ModuleExporter w model _); cbn;
      [| destruct (export_onnx w model img); cbn;
         [| destruct (skip_onnx_input_quantize w _ _); cbn;
            (destruct (onnx_load w _) as [e' | om]; cbn;
             [| destruct (check_model w om); cbn ]) ]];
      (eexists; eexists; split; [norm_app; reflexivity |];
       split; [reflexivity |];
       cbn; intros H; repeat (destruct H as [H | H]; [discriminate H |]);
       exact H).
Qed.

(** Lines 139-149 when [ts] is unbound: [coremltools] is imported, and if
    that succeeds the start line is printed and the evaluation of the name
    [ts] raises; [ct.convert] is not reached. *)
Lemma coreml_block_unbound (w : World) (o : Options) (img : list Z) (fr : Frame) :
  ts fr = None ->
  coreml_block w o img fr
  = match import_coremltools w with
    | Some e =>
        (inr tt, mkFrame (trace fr ++ [ImportCoremltools;
                                       Print (MsgFailure CoreML e)]) None)
    | None =>
        (inr tt,
         mkFrame (trace fr ++ [ImportCoremltools;
                               Print (MsgStarting CoreML (ct_version w));
                               Print (MsgFailure CoreML
                                        (NameError "name 'ts' is not defined"))])
                 None)
    end.
Proof.
  intros Hts. unfold coreml_block. py_simpl. rewrite Hts.
  destruct (import_coremltools w); cbn; norm_app; reflexivity.
Qed.

(** Every run of the CoreML block returns normally, starts with the import
    and reports once. *)
Lemma coreml_block_spec (w : World) (o : Options) (img : list Z) (fr : Frame) :
  exists tr' st,
    coreml_block w o img fr
    = (inr tt, mkFrame (trace fr ++ ImportCoremltools :: tr') (ts fr))
    /\ results tr' = [mkExportResult CoreML st].
Proof.
  unfold coreml_block. py_simpl.
  destruct (import_coremltools w) as [e |]; cbn;
    [| destruct (ts fr) as [t |] eqn:Hts; cbn;
       [ destruct (ImageType w _ _); cbn;
         [| destruct (ct_convert w t) as [e | ml]; cbn;
            [| destruct (ml_save w ml _); cbn ]] |]];
    (eexists; eexists; split; [norm_app; try rewrite Hts; reflexivity |];
     reflexivity).
Qed.

(** Every run of the TorchScript block returns normally, starts with its
    start line and reports once. *)
Lemma torchscript_block_spec (w : World) (o : Options) (model : Model)
    (img : list Z) (fr : Frame) :
  exists tr' st ts',
    torchscript_block w o model img fr
    = (inr tt,
       mkFrame (trace fr ++ Print (MsgStarting TorchScript (torch_version w)) :: tr')
               ts')
    /\ results tr' = [mkExportResult TorchScript st].
Proof.
  rewrite torchscript_block_eq. cbv zeta.
  destruct (jit_trace w model img) as [e | t];
    [| destruct (ts_save w t _)];
    (eexists; eexists; eexists; split; reflexivity).
Qed.





(** C2, as the code has it. When [torch.jit.trace] raises, the CoreML block
    is still entered: [coremltools] is imported, and [ct.convert] is never
    called, because [ts] is unbound. CoreML is reported as failed, with the
    text of the [NameError] on [ts] when the import succeeded and with the
    import's own error otherwise. *)
Theorem C2_coreml_after_failed_trace (w : World) (o : Options) (model : Model)
    (img : list Z) (y : PyVal) (e : exn) :
  jit_trace w model img = inl e ->
  let tr := run_trace (export_backends w o model img y) in
  ~ In CallCtConvert tr
  /\ In ImportCoremltools tr
  /\ exists onnx_status,
      results tr
      = [mkExportResult TorchScript (Failed (exn_str e));
         mkExportResult ONNX onnx_status;
         mkExportResult CoreML
           (Failed (match import_coremltools w with
                    | Some e' => exn_str e'
                    | None => "name 'ts' is not defined"
                    end))].
Proof.
  intros Hj tr. subst tr. unfold run_trace, export_backends, bind.
  rewrite torchscript_block_eq. cbv zeta. rewrite Hj.
  match goal with
  | |- context [onnx_block w o model img y ?f] =>
      destruct (onnx_block_spec w o model img y f) as [tr2 [s2 [E2 [R2 N2]]]]
  end.
  rewrite E2. cbn [trace ts start app].
  rewrite coreml_block_unbound by reflexivity.
  destruct (import_coremltools w) as [e' |]; cbn [snd trace].
  - split; [| split].
    + cbn. intros H. repeat (destruct H as [H | H]; [discriminate H |]).
      apply in_app_or in H. destruct H as [H | H]; [exact (N2 H) |].
      repeat (destruct H as [H | H]; [discriminate H |]). exact H.
    + cbn. do 4 right. apply in_or_app. right. left. reflexivity.
    + exists s2. cbn. rewrite results_app, R2. reflexivity.
  - split; [| split].
    + cbn. intros H. repeat (destruct H as [H | H]; [discriminate H |]).
      apply in_app_or in H. destruct H as [H | H]; [exact (N2 H) |].
      repeat (destruct H as [H | H]; [discriminate H |]). exact H.
    + cbn. do 4 right. apply in_or_app. right. left. reflexivity.
    + exists s2. cbn. rewrite results_app, R2. reflexivity.
Qed.

Lemma C2_witness :
  ~ In CallCtConvert
      (run_trace
         (export_backends
            (Sample.world_with (PackagedModel Sample.model) PyNone
               (inl (RuntimeError "tracing failed")) None)
            Sample.options Sample.model [1; 3; 416; 416]%Z PyNone)).
Proof.
  apply (C2_coreml_after_failed_trace
           (Sample.world_with (PackagedModel Sample.model) PyNone
              (inl (RuntimeError "tracing failed")) None)
           Sample.options Sample.model [1; 3; 416; 416]%Z PyNone
           (RuntimeError "tracing failed")).
  reflexivity.
Defined.

(** C2, as the spec states it, fails: here the TorchScript export fails
    (the trace succeeds, saving it raises), and the CoreML block converts
    the trace and reports success. *)
Lemma C2_counterexample :
  let w := Sample.world_with (PackagedModel Sample.model) PyNone
             (inr (mkScriptModule "graph")) (Some (OtherError "OSError" "disk full")) in
  let tr := run_trace (export_backends w Sample.options Sample.model
                         [1; 3; 416; 416]%Z PyNone) in
  results tr
  = [mkExportResult TorchScript (Failed "disk full");
     mkExportResult ONNX (Success "./yolov3.onnx");
     mkExportResult CoreML (Success "./yolov3.mlmodel")]
  /\ In CallCtConvert tr.
Proof.
  split; [reflexivity |]. cbn.
  repeat (first [left; reflexivity | right]).
Qed.

(** The lines printed when tracing fails and everything else works. *)
Example failure_lines_after_failed_trace :
  map render_result
      (results
         (run_trace
            (export_backends
               (Sample.world_with (PackagedModel Sample.model) PyNone
                  (inl (RuntimeError "tracing failed")) None)
               Sample.options Sample.model [1; 3; 416; 416]%Z PyNone)))
  = ["TorchScript export failure: tracing failed";
     "ONNX export success, saved as ./yolov3.onnx";
     "CoreML export failure: name 'ts' is not defined"].
Proof. reflexivity. Qed.

(** ** Tensor names of the standard ONNX export *)

(** C3, as the code has it. Without a recipe, once [import onnx] has
    succeeded, [torch.onnx.export] is called with opset 12, the input named
    "images", and output names chosen by the test [y is None] on the dry
    run's value: "classes" and "boxes" when the dry run returned [None],
    the single name "output" for every other value, a pair included. *)
Theorem C3_onnx_tensor_names (w : World) (o : Options) (model : Model)
    (img : list Z) (y : PyVal) (fr : Frame) :
  opt_truthy (sparseml_recipe o) = false ->
  import_onnx w = None ->
  exists args rest,
    trace (snd (onnx_block w o model img y fr))
    = trace fr ++ [ImportOnnx; Print (MsgStarting ONNX (onnx_version w));
                   CallOnnxExport (onnx_filename (weights o)) args] ++ rest
    /\ opset_version args = 12%Z
    /\ input_names args = ["images"]
    /\ output_names args
       = match y with
         | PyNone => ["classes"; "boxes"]
         | PyTensor _ => ["output"]
         | PyTuple _ => ["output"]
         end.
Proof.
  intros Hr Hi. exists (onnx_export_args o y).
  unfold onnx_block. py_simpl. rewrite Hi, Hr. cbn.
  destruct (onnx_export w model img _ _); cbn;
    [| destruct (onnx_load w _) as [e | om]; cbn;
       [| destruct (check_model w om); cbn ]];
    (eexists; split; [norm_app; reflexivity |]);
    (repeat split; destruct y; reflexivity).
Qed.

Lemma C3_witness :
  exists args rest,
    trace (snd (onnx_block Sample.world Sample.options Sample.model
                  [1; 3; 416; 416]%Z PyNone start))
    = trace start ++ [ImportOnnx; Print (MsgStarting ONNX "1.8.0");
                      CallOnnxExport "./yolov3.onnx" args] ++ rest
    /\ opset_version args = 12%Z
    /\ input_names args = ["images"]
    /\ output_names args = ["classes"; "boxes"].
Proof.
  apply (C3_onnx_tensor_names Sample.world Sample.options Sample.model
           [1; 3; 416; 416]%Z PyNone start); reflexivity.
Defined.

(** C3, as the spec states it, fails: when the dry run returns a
    (classes, boxes) pair, the output is still named "output". *)
Lemma C3_counterexample :
  let w := Sample.world_with (PackagedModel Sample.model) Sample.classes_boxes
             (inr (mkScriptModule "graph")) None in
  forward w Sample.model [1; 3; 416; 416]%Z = inr Sample.classes_boxes
  /\ output_names (onnx_export_args Sample.options Sample.classes_boxes)
     = ["output"]
  /\ In (CallOnnxExport "./yolov3.onnx"
           (mkOnnxExportArgs false 12 ["images"] ["output"] None))
        (run_trace (main w Sample.options)).
Proof.
  split; [reflexivity |]. split; [reflexivity |].
  cbn. repeat (first [left; reflexivity | right]).
Qed.

(** ** Order of recipe application and weight loading *)


(** Whatever its outcome, the resolution only calls the download, the
    deserializer and the two model constructors. *)
Lemma resolve_checkpoint_trace (w : World) (o : Options) (fr : Frame) :
  exists tA,
    trace (snd (resolve_checkpoint w o fr)) = trace fr ++ tA
    /\ ts (snd (resolve_checkpoint w o fr)) = ts fr
    /\ forallb is_resolve tA = true.
Proof.
  unfold resolve_checkpoint, ckpt_getitem_model, cfg_or_yaml. py_simpl.
  destruct (attempt_download w (weights o)); cbn;
    [eexists; split; [reflexivity | split; reflexivity] |].
  destruct (torch_load w (weights o)) as [e | ckpt]; cbn;
    [eexists; split; [norm_app; reflexivity | split; reflexivity] |].
  destruct (ckpt_model ckpt) as [[pm | raw] |]; cbn;
    destruct (str_truthy (cfg o)); cbn;
    try (destruct (Model_init w _); cbn);
    try (destruct (attempt_load w _); cbn);
    (eexists; split; [norm_app; reflexivity | split; reflexivity]).
Qed.


(** Lines 44-51: the recipe is read, then applied with every quantization
    modifier enabled; a return with a recipe configured means both
    happened. *)
Lemma apply_recipe_trace (w : World) (o : Options) (model : Model) (fr : Frame) :
  exists tR,
    trace (snd (apply_recipe w o model fr)) = trace fr ++ tR
    /\ ts (snd (apply_recipe w o model fr)) = ts fr
    /\ forallb (fun ev => negb (is_load ev)) tR = true
    /\ (forall model',
          fst (apply_recipe w o model fr) = inr model' ->
          opt_truthy (sparseml_recipe o) = true ->
          exists recipe mgr,
            sparseml_recipe o = Some recipe
            /\ tR = [CallFromYaml recipe; CallInitialize (enable_quantization mgr)]).
Proof.
  unfold apply_recipe, opt_truthy.
  destruct (sparseml_recipe o) as [recipe |]; cbn;
    [| exists []; rewrite app_nil_r; repeat split; intros; discriminate].
  destruct (str_truthy recipe); cbn;
    [| exists []; rewrite app_nil_r; repeat split; intros; discriminate].
  rewrite orb_false_r.
  destruct (grid o || dynamic o); cbn;
    [exists []; rewrite app_nil_r; repeat split; intros; discriminate |].
  py_simpl.
  destruct (from_yaml w recipe) as [e | mgr]; cbn;
    [eexists; repeat split; intros; discriminate |].
  destruct (initialize w (enable_quantization mgr) model) as [e | m']; cbn;
    (eexists; split; [norm_app; reflexivity |]; repeat split; intros;
     try discriminate).
  exists recipe, mgr. split; reflexivity.
Qed.

(** The trace of [load_model] in three parts: resolution, recipe, load. *)
Lemma load_model_trace (w : World) (o : Options) (dev : string) (fr : Frame) :
  exists tA tR tL,
    trace (snd (load_model w o dev fr)) = trace fr ++ tA ++ tR ++ tL
    /\ forallb is_resolve tA = true
    /\ forallb (fun ev => negb (is_load ev)) tR = true
    /\ (tL = [] \/ tL = [CallLoadStateDict true]
        \/ tL = [CallLoadStateDict true; CallFloat])
    /\ (tL <> [] -> opt_truthy (sparseml_recipe o) = true ->
        exists recipe mgr,
          sparseml_recipe o = Some recipe
          /\ tR = [CallFromYaml recipe; CallInitialize (enable_quantization mgr)]).
Proof.
  destruct (resolve_checkpoint_trace w o fr) as [tA [EA [_ HA]]].
  unfold load_model, bind at 1.
  destruct (resolve_checkpoint w o fr) as [[e | ms] fr1] eqn:E1; cbn [snd] in EA.
  { exists tA, [], []. cbn [snd]. rewrite EA, !app_nil_r.
    repeat split; auto. intros H; contradiction H; reflexivity. }
  destruct (apply_recipe_trace w o (fst ms) fr1) as [tR [ER [_ [HR HR']]]].
  unfold bind at 1.
  destruct (apply_recipe w o (fst ms) fr1) as [[e | model'] fr2] eqn:E2;
    cbn [snd fst] in ER, HR'.
  { exists tA, tR, []. cbn [snd]. rewrite ER, EA, !app_nil_r, app_assoc.
    repeat split; auto. intros H; contradiction H; reflexivity. }
  py_simpl.
  destruct (load_state_dict model' (snd ms) true) as [e | loaded]; cbn.
  - exists tA, tR, [CallLoadStateDict true]. rewrite ER, EA.
    repeat split; auto.
    + repeat rewrite <- app_assoc. reflexivity.
    + intros _ Hrec. exact (HR' model' eq_refl Hrec).
  - exists tA, tR, [CallLoadStateDict true; CallFloat]. rewrite ER, EA.
    repeat split; auto.
    + repeat rewrite <- app_assoc. reflexivity.
    + intros _ Hrec. exact (HR' model' eq_refl Hrec).
Qed.






(** ** Strict weight loading *)

Lemma nonempty_filter {A : Type} (f : A -> bool) (l : list A) (x : A) :
  In x l -> f x = true -> filter f l <> [].
Proof.
  intros Hin Hf E.
  assert (H : In x (filter f l)) by (apply filter_In; split; assumption).
  rewrite E in H. destruct H.
Qed.

(** A name of the model that the mapping does not bind fails the strict
    load. *)
Lemma load_state_dict_missing (m : Model) (sd : StateDict) (name : string) :
  In name (keys (state_dict m)) ->
  lookup name sd = None ->
  load_state_dict m sd true
  = inl (RuntimeError "Error(s) in loading state_dict for Model").
Proof.
  intros Hin Hl. unfold load_state_dict.
  assert (Hm : missing_keys (state_dict m) sd <> []).
  { unfold missing_keys. apply (nonempty_filter _ _ name Hin).
    rewrite Hl. reflexivity. }
  destruct (missing_keys (state_dict m) sd); [contradiction Hm; reflexivity |].
  reflexivity.
Qed.

(** A name bound with another shape fails the load, strict or not. *)
Lemma load_state_dict_mismatch (m : Model) (sd : StateDict) (name : string)
    (t t' : Tensor) (strict : bool) :
  In (name, t') (state_dict m) ->
  lookup name sd = Some t ->
  shape t <> shape t' ->
  load_state_dict m sd strict
  = inl (RuntimeError "Error(s) in loading state_dict for Model").
Proof.
  intros Hin Hl Hs. unfold load_state_dict.
  assert (Hm : size_mismatches (state_dict m) sd <> []).
  { unfold size_mismatches, keys. intros E. apply map_eq_nil in E. revert E.
    apply (nonempty_filter _ _ (name, t') Hin). cbn. rewrite Hl.
    unfold shape_eqb. destruct (list_eq_dec Z.eq_dec (shape t) (shape t'));
      [contradiction | reflexivity]. }
  destruct (size_mismatches (state_dict m) sd); [contradiction Hm; reflexivity |].
  rewrite orb_true_r. reflexivity.
Qed.

(** C5. Let the resolution return a model and a weight mapping, and the
    recipe step return the target model. If one parameter name of the
    target is absent from the mapping, or bound there to a tensor of
    another shape, [load_model] raises the [RuntimeError] of the strict
    [load_state_dict] (the spec's WeightMismatchError) right at that call:
    no model is returned and nothing runs after the call, however many
    other names match. *)
Theorem C5_strict_weight_load (w : World) (o : Options) (dev : string)
    (fr fr1 fr2 : Frame) (model model' : Model) (sd : StateDict)
    (name : string) :
  resolve_checkpoint w o fr = (inr (model, sd), fr1) ->
  apply_recipe w o model fr1 = (inr model', fr2) ->
  In name (keys (state_dict model')) ->
  (lookup name sd = None
   \/ exists t t', lookup name sd = Some t
                   /\ In (name, t') (state_dict model')
                   /\ shape t <> shape t') ->
  load_model w o dev fr
  = (inl (RuntimeError "Error(s) in loading state_dict for Model"),
     mkFrame (trace fr2 ++ [CallLoadStateDict true]) (ts fr2)).
Proof.
  intros H1 H2 Hin Hbad.
  assert (E : load_state_dict model' sd true
              = inl (RuntimeError "Error(s) in loading state_dict for Model")).
  { destruct Hbad as [Hnone | [t [t' [Hsome [Hin' Hshape]]]]].
    - exact (load_state_dict_missing model' sd name Hin Hnone).
    - exact (load_state_dict_mismatch model' sd name t t' true Hin' Hsome Hshape). }
  unfold load_model, bind at 1. rewrite H1. cbn [fst snd].
  unfold bind at 1. rewrite H2. py_simpl. rewrite E. reflexivity.
Qed.

Lemma C5_witness :
  load_model
    (Sample.world_with (RawWeights Sample.all_but_anchors) PyNone
       (inr (mkScriptModule "graph")) None)
    Sample.options_cfg "cpu" start
  = (inl (RuntimeError "Error(s) in loading state_dict for Model"),
     mkFrame [CallAttemptDownload "./yolov3.pt"; CallTorchLoad "./yolov3.pt";
              CallModel (CfgPath "models/yolov3.yaml"); CallLoadStateDict true]
             None).
Proof.
  apply (C5_strict_weight_load
           (Sample.world_with (RawWeights Sample.all_but_anchors) PyNone
              (inr (mkScriptModule "graph")) None)
           Sample.options_cfg "cpu" start
           (mkFrame [CallAttemptDownload "./yolov3.pt"; CallTorchLoad "./yolov3.pt";
                     CallModel (CfgPath "models/yolov3.yaml")] None)
           (mkFrame [CallAttemptDownload "./yolov3.pt"; CallTorchLoad "./yolov3.pt";
                     CallModel (CfgPath "models/yolov3.yaml")] None)
           Sample.model Sample.model Sample.all_but_anchors "model.3.anchors").
  - reflexivity.
  - reflexivity.
  - vm_compute. repeat (first [left; reflexivity | right]).
  - left. reflexivity.
Defined.

(** ** Which events a computation can emit *)

Section EmitsOnly.

Variable P : event -> bool.

Lemma emits_ret {A : Type} (a : A) : emits_only P (ret a).
Proof. intros fr. exists []. rewrite app_nil_r. split; reflexivity. Qed.

Lemma emits_raise {A : Type} (e : exn) : emits_only P (@raise A e).
Proof. intros fr. exists []. rewrite app_nil_r. split; reflexivity. Qed.

Lemma emits_lift {A : Type} (r : exn + A) : emits_only P (lift r).
Proof. destruct r; [apply emits_raise | apply emits_ret]. Qed.

Lemma emits_emit (ev : event) : P ev = true -> emits_only P (emit ev).
Proof.
  intros H fr. exists [ev]. split; [reflexivity |]. cbn. rewrite H. reflexivity.
Qed.

Lemma emits_bind {A B : Type} (c : Py A) (k : A -> Py B) :
  emits_only P c -> (forall a, emits_only P (k a)) -> emits_only P (bind c k).
Proof.
  intros Hc Hk fr. unfold bind.
  destruct (Hc fr) as [t1 [E1 F1]].
  destruct (c fr) as [[e | a] fr1]; cbn [snd] in *.
  - exists t1. split; assumption.
  - destruct (Hk a fr1) as [t2 [E2 F2]].
    exists (t1 ++ t2). rewrite E2, E1, app_assoc. split; [reflexivity |].
    rewrite forallb_app, F1, F2. reflexivity.
Qed.

Lemma emits_try_except {A : Type} (body : Py A) (handler : exn -> Py A) :
  emits_only P body -> (forall e, emits_only P (handler e)) ->
  emits_only P (try_except body handler).
Proof.
  intros Hc Hk fr. unfold try_except.
  destruct (Hc fr) as [t1 [E1 F1]].
  destruct (body fr) as [[e | a] fr1]; cbn [snd] in *.
  - destruct (Hk e fr1) as [t2 [E2 F2]].
    exists (t1 ++ t2). rewrite E2, E1, app_assoc. split; [reflexivity |].
    rewrite forallb_app, F1, F2. reflexivity.
  - exists t1. split; assumption.
Qed.

Lemma emits_call {A : Type} (ev : event) (r : exn + A) :
  P ev = true -> emits_only P (call ev r).
Proof.
  intros H. apply emits_bind; [apply emits_emit, H | intros; apply emits_lift].
Qed.

Lemma emits_call_ (ev : event) (r : option exn) :
  P ev = true -> emits_only P (call_ ev r).
Proof.
  intros H. apply emits_bind; [apply emits_emit, H |].
  intros; destruct r; [apply emits_raise | apply emits_ret].
Qed.

Lemma emits_bind_ts (v : ScriptModule) : emits_only P (bind_ts v).
Proof. intros fr. exists []. cbn. rewrite app_nil_r. split; reflexivity. Qed.

Lemma emits_read_ts : emits_only P read_ts.
Proof.
  intros fr. exists []. unfold read_ts.
  destruct (ts fr); cbn; rewrite app_nil_r; split; reflexivity.
Qed.

Lemma emits_run_fuel {A : Type} (r : option (exn + A)) : emits_only P (run_fuel r).
Proof. destruct r; [apply emits_lift | apply emits_raise]. Qed.

End EmitsOnly.

Ltac emits_step :=
  first
    [ apply emits_ret | apply emits_raise | apply emits_lift
    | apply emits_bind_ts | apply emits_read_ts | apply emits_run_fuel
    | apply emits_call; reflexivity | apply emits_call_; reflexivity
    | apply emits_emit; reflexivity
    | apply emits_bind; [| intros ?]
    | apply emits_try_except; [| intros ?]
    | match goal with
      | |- emits_only _ (if ?b then _ else _) => destruct b
      | |- emits_only _ (match ?x with _ => _ end) => destruct x
      end ].

Ltac emits := repeat emits_step.

(** [load_model] only emits its own calls. *)
Lemma load_model_emits (w : World) (o : Options) (dev : string) :
  emits_only (fun ev => is_resolve ev || is_recipe ev || is_load ev
                        || match ev with CallFloat => true | _ => false end)
             (load_model w o dev).
Proof.
  unfold load_model, resolve_checkpoint, apply_recipe, ckpt_getitem_model,
    cfg_or_yaml, print.
  emits.
Qed.

(** The export blocks never call [check_img_size] or [torch.zeros]. *)
Lemma export_backends_emits (w : World) (o : Options) (model : Model)
    (img : list Z) (y : PyVal) :
  emits_only (fun ev => match ev with
                        | CallCheckImgSize _ _ | CallTorchZeros _ => false
                        | _ => true
                        end)
             (export_backends w o model img y).
Proof.
  unfold export_backends, torchscript_block, onnx_block, coreml_block, print.
  emits.
Qed.

(** ** Image size: expansion, then validation *)

(** Line 81: the comprehension calls [check_img_size] on the elements in
    order, stops at the first call that raises, and returns only when all
    calls have been made. *)
Lemma for_each_checks (w : World) (gs : Z) (l : list Z) (fr : Frame) :
  let c := for_each (fun x => call (CallCheckImgSize x gs) (check_img_size w x gs)) l in
  exists k,
    trace (snd (c fr)) = trace fr ++ map (fun x => CallCheckImgSize x gs) (firstn k l)
    /\ (forall sizes, fst (c fr) = inr sizes -> firstn k l = l).
Proof.
  cbv zeta. revert fr. induction l as [| x l IH]; intros fr.
  - exists 0. cbn. rewrite app_nil_r. split; [reflexivity | reflexivity].
  - cbn [for_each]. py_simpl.
    destruct (check_img_size w x gs) as [e | x']; cbn.
    + exists 1. cbn. split; [reflexivity | discriminate].
    + destruct (IH (mkFrame (trace fr ++ [CallCheckImgSize x gs]) (ts fr)))
        as [k [E H]].
      py_simpl.
      destruct (for_each _ l _) as [[e | ys] fr'] eqn:Ef; cbn [fst snd] in *.
      * exists (S k). cbn. rewrite E. norm_app. split; [reflexivity | discriminate].
      * exists (S k). cbn. rewrite E. norm_app. split; [reflexivity |].
        intros sizes _. f_equal. apply (H ys). reflexivity.
Qed.

Lemma filter_none (P : event -> bool) (l : list event) :
  forallb (fun ev => negb (P ev)) l = true -> filter P l = [].
Proof.
  induction l as [| a l IH]; [reflexivity |]. cbn.
  destruct (P a); cbn; [discriminate | exact IH].
Qed.

Lemma filter_checks (gs : Z) (l : list Z) :
  filter is_check (map (fun x => CallCheckImgSize x gs) l)
  = map (fun x => CallCheckImgSize x gs) l.
Proof. induction l as [| a l IH]; [reflexivity |]. cbn. rewrite IH. reflexivity. Qed.

Lemma forallb_weaken (P Q : event -> bool) (l : list event) :
  (forall ev, P ev = true -> Q ev = true) ->
  forallb P l = true -> forallb Q l = true.
Proof.
  intros H. induction l as [| a l IH]; [reflexivity |]. cbn.
  intros Hl. apply andb_true_iff in Hl. destruct Hl as [Ha Hl].
  rewrite (H a Ha), (IH Hl). reflexivity.
Qed.

Lemma not_in_forallb (P : event -> bool) (l : list event) (ev : event) :
  forallb (fun x => negb (P x)) l = true -> P ev = true -> ~ In ev l.
Proof.
  intros H Hev Hin. rewrite forallb_forall in H. specialize (H ev Hin).
  rewrite Hev in H. discriminate.
Qed.

(** [max_stride] returns the greatest element of the list. *)
Lemma fold_left_max (t : list Z) (x : Z) :
  In (fold_left Z.max t x) (x :: t)
  /\ Forall (fun s => (s <= fold_left Z.max t x)%Z) (x :: t).
Proof.
  revert x. induction t as [| y t IH]; intros x; cbn [fold_left].
  - split; [left; reflexivity | constructor; [lia | constructor]].
  - destruct (IH (Z.max x y)) as [Hin Hall]. inversion Hall as [| a l Hm Ht]; subst.
    split.
    + destruct Hin as [E | Hin]; [| right; right; exact Hin].
      destruct (Z.max_spec x y) as [[_ Hmax] | [_ Hmax]].
      * right. left. rewrite <- E. symmetry. exact Hmax.
      * left. rewrite <- E. symmetry. exact Hmax.
    + constructor; [lia |]. constructor; [lia | exact Ht].
Qed.

Lemma max_stride_spec (s : list Z) (fr fr' : Frame) (gs : Z) :
  max_stride s fr = (inr gs, fr') ->
  In gs s /\ Forall (fun x => (x <= gs)%Z) s.
Proof.
  unfold max_stride. destruct s as [| x t]; [discriminate |].
  intros H. inversion H; subst. apply fold_left_max.
Qed.

(** The trace of the script: events that are neither size checks nor the
    [torch.zeros] call, then the size checks on the expanded list, in
    order, then the rest, which is empty unless every check was made. A
    check is made only once [load_model] has returned a model, and its
    second argument is what [max_stride] returns for that model. *)
Lemma main_trace (w : World) (o : Options) :
  exists gs k t1 t2,
    run_trace (main w o)
    = t1 ++ map (fun x => CallCheckImgSize x gs) (firstn k (expand (img_size o))) ++ t2
    /\ forallb (fun ev => negb (is_check ev)) t1 = true
    /\ forallb (fun ev => negb (is_zeros ev)) t1 = true
    /\ forallb (fun ev => negb (is_check ev)) t2 = true
    /\ (t2 = [] \/ firstn k (expand (img_size o)) = expand (img_size o))
    /\ (firstn k (expand (img_size o)) <> [] ->
        exists dev model fr1,
          select_device w (device o) = inr dev
          /\ load_model w (set_img_size o (expand (img_size o))) dev
               (before_load (set_img_size o (expand (img_size o))))
             = (inr model, fr1)
          /\ max_stride (stride model) fr1 = (inr gs, fr1)).
Proof.
  unfold run_trace, main, before_load. cbv zeta.
  remember (expand (img_size o)) as sizes0 eqn:Hs.
  unfold bind at 1, print at 1, emit at 1. cbn [trace start ts app snd].
  unfold bind at 1, emit at 1. cbn [trace start ts app snd].
  unfold bind at 1, call at 1, bind at 1, emit at 1. cbn [trace start ts app snd fst device set_img_size].
  destruct (select_device w (device o)) as [e | dev]; cbn [lift raise ret snd trace].
  { exists 0%Z, 0. eexists; exists []. cbn [firstn map app]. rewrite app_nil_r.
    split; [reflexivity |]. repeat split; auto. intros H; contradiction H; reflexivity. }
  unfold bind at 1.
  match goal with |- context [load_model w ?oo dev ?f] =>
    destruct (load_model_emits w oo dev f) as [tL [EL FL]];
    destruct (load_model w oo dev f) as [[e | model] fr1] eqn:ELoad
  end; cbn [snd fst trace] in *.
  all: assert (FL1 : forallb (fun ev => negb (is_check ev)) tL = true)
    by (revert FL; apply forallb_weaken; intros []; cbn; congruence).
  all: assert (FL2 : forallb (fun ev => negb (is_zeros ev)) tL = true)
    by (revert FL; apply forallb_weaken; intros []; cbn; congruence).
  { exists 0%Z, 0. eexists; exists []. cbn [firstn map app]. rewrite app_nil_r.
    split; [exact EL |]. cbn. rewrite FL1, FL2. repeat split; auto.
    intros H; contradiction H; reflexivity. }
  unfold bind at 1.
  destruct (max_stride (stride model) fr1) as [[e | gs] fr1'] eqn:EM.
  { assert (fr1' = fr1) as ->
      by (unfold max_stride in EM; destruct (stride model); inversion EM; reflexivity).
    exists 0%Z, 0. eexists; exists []. cbn [firstn map app]. rewrite app_nil_r.
    split; [exact EL |]. cbn. rewrite FL1, FL2. repeat split; auto.
    intros H; contradiction H; reflexivity. }
  assert (fr1' = fr1) as ->
    by (unfold max_stride in EM; destruct (stride model); inversion EM; reflexivity).
  unfold bind at 1. change (img_size (set_img_size o sizes0)) with sizes0.
  assert (Hgs : exists dev0 model0 fr0,
             @inr exn string dev = inr dev0
             /\ load_model w (set_img_size o sizes0) dev0
                  (mkFrame [Print (MsgOpt (set_img_size o sizes0)); CallSetLogging;
                            CallSelectDevice (device o)] None)
                = (inr model0, fr0)
             /\ max_stride (stride model0) fr0 = (inr gs, fr0)).
  { exists dev, model, fr1. split; [reflexivity |]. split; [exact ELoad | exact EM]. }
  destruct (for_each_checks w gs sizes0 fr1) as [k [EC HC]].
  destruct (for_each _ sizes0 fr1) as [[e | sizes] fr2] eqn:EF; cbn [fst snd] in *.
  { exists gs, k. eexists; exists []. rewrite app_nil_r.
    split; [rewrite EC, EL; reflexivity |].
    split; [cbn; rewrite FL1; reflexivity |].
    split; [cbn; rewrite FL2; reflexivity |].
    split; [reflexivity |]. split; [left; reflexivity |].
    intros _. exact Hgs. }
  specialize (HC sizes eq_refl).
  match goal with |- context [bind ?c ?kk fr2] =>
    assert (HT : emits_only (fun ev => negb (is_check ev)) (bind c kk))
  end.
  { pose proof (fun m i y => export_backends_emits w (set_img_size (set_img_size o sizes0) sizes) m i y) as HB.
    apply emits_bind; [apply emits_call; reflexivity | intros img].
    apply emits_bind; [apply emits_run_fuel | intros m].
    apply emits_bind; [apply emits_call; reflexivity | intros y].
    apply emits_bind; [| intros; apply emits_emit; reflexivity].
    intros fr. destruct (HB m img y fr) as [t [E F]]. exists t. split; [exact E |].
    revert F. apply forallb_weaken. intros []; cbn; congruence. }
  destruct (HT fr2) as [t2 [E2 F2]].
  exists gs, k, ([Print (MsgOpt (set_img_size o sizes0)); CallSetLogging;
         CallSelectDevice (device o)] ++ tL), t2.
  split; [rewrite E2, EC, EL; repeat rewrite <- app_assoc; reflexivity |].
  split; [cbn; rewrite FL1; reflexivity |].
  split; [cbn; rewrite FL2; reflexivity |].
  split; [exact F2 |]. split; [right; exact HC |].
  intros _. exact Hgs.
Qed.

(** C9. A single size [n] is expanded to [[n; n]] and two sizes are left as
    they are (line 69), and this happens before the validation of line 81:
    in every run the calls to [check_img_size] are made on the elements of
    the expanded list, in order, and when the run reaches [torch.zeros] all
    of them have been made. Every such call is made after [load_model] has
    returned a model, and validates against the maximum stride of that
    model: its second argument is an element of [model.stride] that no
    other element exceeds. *)
Theorem C9_img_size_expanded_before_check (w : World) (o : Options) :
  (forall n : Z, expand [n] = [n; n])
  /\ (forall h wd : Z, expand [h; wd] = [h; wd])
  /\ exists gs k,
      filter is_check (run_trace (main w o))
      = map (fun x => CallCheckImgSize x gs) (firstn k (expand (img_size o)))
      /\ (forall shape,
            In (CallTorchZeros shape) (run_trace (main w o)) ->
            firstn k (expand (img_size o)) = expand (img_size o))
      /\ (forall x g,
            In (CallCheckImgSize x g) (run_trace (main w o)) ->
            g = gs
            /\ exists dev model fr1,
                 select_device w (device o) = inr dev
                 /\ load_model w (set_img_size o (expand (img_size o))) dev
                      (before_load (set_img_size o (expand (img_size o))))
                    = (inr model, fr1)
                 /\ In gs (stride model)
                 /\ Forall (fun s => (s <= gs)%Z) (stride model)).
Proof.
  split; [reflexivity |]. split; [reflexivity |].
  destruct (main_trace w o) as [gs [k [t1 [t2 [E [F1 [Z1 [F2 [Hk Hgs]]]]]]]]].
  exists gs, k. rewrite E. split; [| split].
  - rewrite !filter_app, filter_checks.
    rewrite (filter_none is_check t1 F1), (filter_none is_check t2 F2).
    rewrite app_nil_r. reflexivity.
  - intros shape Hin. apply in_app_or in Hin. destruct Hin as [Hin | Hin].
    { exfalso. exact (not_in_forallb is_zeros t1 (CallTorchZeros shape) Z1 eq_refl Hin). }
    apply in_app_or in Hin. destruct Hin as [Hin | Hin].
    { apply in_map_iff in Hin. destruct Hin as [x [Hx _]]. discriminate Hx. }
    destruct Hk as [-> | Hk]; [destruct Hin | exact Hk].
  - intros x g Hin. apply in_app_or in Hin. destruct Hin as [Hin | Hin].
    { exfalso. exact (not_in_forallb is_check t1 (CallCheckImgSize x g) F1 eq_refl Hin). }
    apply in_app_or in Hin. destruct Hin as [Hin | Hin].
    2:{ exfalso.
        exact (not_in_forallb is_check t2 (CallCheckImgSize x g) F2 eq_refl Hin). }
    apply in_map_iff in Hin. destruct Hin as [x0 [Hx Hin0]].
    inversion Hx; subst x0 g. split; [reflexivity |].
    destruct Hgs as [dev [model [fr1 [Hd [Hl Hm]]]]].
    { intros Hnil. rewrite Hnil in Hin0. destruct Hin0. }
    exists dev, model, fr1. split; [exact Hd |]. split; [exact Hl |].
    exact (max_stride_spec _ _ _ _ Hm).
Qed.

Lemma C9_witness :
  exists gs k,
    filter is_check (run_trace (main Sample.world Sample.options))
    = map (fun x => CallCheckImgSize x gs) (firstn k (expand [416%Z]))
    /\ firstn k (expand [416%Z]) = [416%Z; 416%Z]
    /\ In (CallCheckImgSize 416 32) (run_trace (main Sample.world Sample.options))
    /\ gs = 32%Z.
Proof.
  destruct (proj2 (proj2
              (C9_img_size_expanded_before_check Sample.world Sample.options)))
    as [gs [k [E [H Hg]]]].
  assert (Hin : In (CallCheckImgSize 416 32)
                  (run_trace (main Sample.world Sample.options))).
  { vm_compute. repeat (first [left; reflexivity | right]). }
  exists gs, k. split; [exact E |]. split; [| split; [exact Hin |]].
  - apply (H [1; 3; 416; 416]%Z).
    vm_compute. repeat (first [left; reflexivity | right]).
  - symmetry. exact (proj1 (Hg 416%Z 32%Z Hin)).
Defined.

(** ** Output file names *)

Lemma append_nil_r (s : string) : (s ++ "")%string = s.
Proof. induction s as [| c s IH]; [reflexivity |]. cbn. rewrite IH. reflexivity. Qed.

(** Appending ".pt" to a string that does not start with ".pt" does not
    make it start with ".pt". *)
Lemma startswith_boundary (c : ascii) (t : string) :
  PyStr.startswith (String c t) ".pt" = false ->
  PyStr.startswith (String c (t ++ ".pt")) ".pt" = false.
Proof.
  unfold PyStr.startswith. cbn [String.prefix append].
  destruct (ascii_dec "." c) as [_ | _]; [| reflexivity].
  destruct t as [| c2 t]; cbn [String.prefix append].
  { intros _. destruct (ascii_dec "p" "."); [discriminate | reflexivity]. }
  destruct (ascii_dec "p" c2) as [_ | _]; [| reflexivity].
  destruct t as [| c3 t]; cbn [String.prefix append].
  { intros _. destruct (ascii_dec "t" "."); [discriminate | reflexivity]. }
  destruct (ascii_dec "t" c3) as [_ | _]; [| reflexivity].
  destruct t; cbn; intros H; discriminate H.
Qed.

(** When the only ".pt" of the weights path is its extension, the
    replacement is the substitution of the extension. *)
Lemma replace_trailing_extension (stem new : string) :
  PyStr.contains stem ".pt" = false ->
  PyStr.replace (stem ++ ".pt") ".pt" new = (stem ++ new)%string.
Proof.
  unfold PyStr.replace. induction stem as [| c t IH]; intros H.
  - cbn. apply append_nil_r.
  - cbn [PyStr.contains] in H. apply orb_false_iff in H. destruct H as [H1 H2].
    cbn [append PyStr.replace_from].
    rewrite (startswith_boundary c t H1). f_equal. exact (IH H2).
Qed.

(** C8. The three file names are computed by [str.replace('.pt', ...)],
    which rewrites every occurrence of ".pt" in the weights path and not
    only the trailing extension: for the weights file [best.pt] in the
    directory [./runs/exp.pt], the directory part of each output path is
    rewritten as well. *)
Theorem C8_replace_rewrites_directory :
  torchscript_filename "./runs/exp.pt/best.pt"
  = "./runs/exp.torchscript.pt/best.torchscript.pt"
  /\ onnx_filename "./runs/exp.pt/best.pt" = "./runs/exp.onnx/best.onnx"
  /\ coreml_filename "./runs/exp.pt/best.pt" = "./runs/exp.mlmodel/best.mlmodel"
  /\ torchscript_filename "./runs/exp.pt/best.pt"
     <> "./runs/exp.pt/best.torchscript.pt".
Proof.
  repeat split; try reflexivity. vm_compute. discriminate.
Qed.

(** ** The export-mode update of the model *)

#[local] Arguments String.eqb : simpl never.

Lemma Module_induction (P : Module -> Prop) :
  (forall c s e st bf at' l,
      Forall (fun nc => P (snd nc)) l -> P (Mod c s e st bf at' l)) ->
  forall m, P m.
Proof.
  intros H. fix IH 1. intros [c s e st bf at' l]. apply H.
  induction l as [| [n x] l IHl]; constructor; [apply IH | apply IHl].
Qed.

Lemma height_child (m : Module) (nc : string * Module) :
  In nc (modules m) -> height (snd nc) < height m.
Proof.
  destruct m as [c s e st bf at' l]. cbn [modules height].
  induction l as [| [n x] l IH]; intros Hin; [destruct Hin |].
  destruct Hin as [<- | Hin]; cbn [snd].
  - lia.
  - specialize (IH Hin). lia.
Qed.

Lemma height_pos (m : Module) : 1 <= height m.
Proof. destruct m; cbn; lia. Qed.

Lemma visit_children_map (visit : Module -> option (exn + Module))
    (g : string * Module -> Module) (l : list (string * Module)) :
  (forall nc, In nc l -> visit (snd nc) = Some (inr (g nc))) ->
  visit_children visit l = Some (inr (map (fun nc => (fst nc, g nc)) l)).
Proof.
  induction l as [| [n c] l IH]; intros H; [reflexivity |].
  cbn [visit_children map fst].
  pose proof (H (n, c) (or_introl eq_refl)) as Hc. cbn [snd] in Hc. rewrite Hc.
  rewrite IH by (intros nc Hin; apply H; right; exact Hin).
  reflexivity.
Qed.

Lemma lookup_in {A : Type} (k : string) (v : A) (l : list (string * A)) :
  lookup k l = Some v -> In (k, v) l.
Proof.
  induction l as [| [k' v'] l IH]; [discriminate |]. cbn.
  destruct (String.eqb_spec k k') as [-> | Hne].
  - intros H; inversion H; subst. left; reflexivity.
  - intros H. right. exact (IH H).
Qed.

Lemma existsb_eqb_in (k : string) (l : list string) :
  existsb (String.eqb k) l = false -> ~ In k l.
Proof.
  intros H Hin. assert (E : existsb (String.eqb k) l = true).
  { apply existsb_exists. exists k. split; [exact Hin | apply String.eqb_refl]. }
  rewrite E in H. discriminate.
Qed.

Lemma in_lookup {A : Type} (k : string) (v : A) (l : list (string * A)) :
  nodupb (keys l) = true -> In (k, v) l -> lookup k l = Some v.
Proof.
  induction l as [| [k' v'] l IH]; [intros _ [] |]. cbn.
  intros Hnd Hin. apply andb_true_iff in Hnd. destruct Hnd as [Hk Hnd].
  apply negb_true_iff in Hk. apply existsb_eqb_in in Hk.
  destruct Hin as [E | Hin].
  - inversion E; subst. rewrite String.eqb_refl. reflexivity.
  - destruct (String.eqb_spec k k') as [-> | Hne].
    + exfalso. apply Hk. unfold keys. apply in_map_iff. exists (k', v). split; auto.
    + exact (IH Hnd Hin).
Qed.

Lemma update_as_map {A : Type} (k : string) (v : A) (l : list (string * A)) :
  nodupb (keys l) = true ->
  update k v l = map (fun nc => if String.eqb k (fst nc) then (fst nc, v) else nc) l.
Proof.
  induction l as [| [k' v'] l IH]; [reflexivity |]. cbn.
  intros Hnd. apply andb_true_iff in Hnd. destruct Hnd as [Hk Hnd].
  destruct (String.eqb_spec k k') as [-> | Hne].
  - f_equal. apply negb_true_iff in Hk. apply existsb_eqb_in in Hk.
    clear IH Hnd. induction l as [| [k2 v2] l IH2]; [reflexivity |]. cbn.
    destruct (String.eqb_spec k' k2) as [-> | Hne2].
    + exfalso. apply Hk. left. reflexivity.
    + f_equal. apply IH2. intros Hin. apply Hk. right. exact Hin.
  - f_equal. exact (IH Hnd).
Qed.

(** The parts of [well_formed]. *)
Lemma well_formed_parts (m : Module) :
  well_formed m = true ->
  nodupb (keys (modules m)) = true
  /\ (isinstance m ClsConv = true -> act_is_module m = true)
  /\ (is_nn_activation m = true -> is_leaf m = true)
  /\ assignable m = true
  /\ forallb (fun nc => well_formed (snd nc)) (modules m) = true.
Proof.
  destruct m as [c s e st bf at' l]. cbn [well_formed modules]. intros H.
  apply andb_true_iff in H. destruct H as [H H5].
  apply andb_true_iff in H. destruct H as [H H4].
  apply andb_true_iff in H. destruct H as [H H3].
  apply andb_true_iff in H. destruct H as [H1 H2].
  split; [exact H1 |]. split; [| split; [| split; assumption]].
  - intros Hc. rewrite Hc in H2. exact H2.
  - intros Hn. rewrite Hn in H3. exact H3.
Qed.

Lemma well_formed_intro (m : Module) :
  nodupb (keys (modules m)) = true ->
  (isinstance m ClsConv = true -> act_is_module m = true) ->
  (is_nn_activation m = true -> is_leaf m = true) ->
  assignable m = true ->
  forallb (fun nc => well_formed (snd nc)) (modules m) = true ->
  well_formed m = true.
Proof.
  destruct m as [c s e st bf at' l]. cbn [well_formed modules].
  intros H1 H2 H3 H4 H5. rewrite H1, H4, H5.
  destruct (isinstance _ ClsConv); [rewrite (H2 eq_refl) |];
    (destruct (is_nn_activation _); [rewrite (H3 eq_refl) |]); reflexivity.
Qed.

Lemma well_formed_child (m : Module) (nc : string * Module) :
  well_formed m = true -> In nc (modules m) -> well_formed (snd nc) = true.
Proof.
  intros H Hin. destruct (well_formed_parts m H) as [_ [_ [_ [_ H5]]]].
  rewrite forallb_forall in H5. exact (H5 nc Hin).
Qed.

(** On a [Conv] whose [act] is a module, [m.act] is the submodule
    registered under that name. *)
Lemma act_is_module_lookup (m : Module) :
  act_is_module m = true ->
  exists a, getattr m "act" = inr (AttrModule a)
            /\ lookup "act" (modules m) = Some a.
Proof.
  unfold act_is_module, getattr.
  destruct (lookup "act" (attrs m)); [discriminate |].
  destruct (lookup "act" (parameters m)); [discriminate |].
  destruct (lookup "act" (buffers m)); [discriminate |].
  destruct (lookup "act" (modules m)) as [a |]; [| discriminate].
  intros _. exists a. split; reflexivity.
Qed.

Lemma assignable_parts (m : Module) :
  assignable m = true ->
  setattr_refused m "_non_persistent_buffers_set" "set" = None
  /\ setattr_refused m "export" "bool" = None.
Proof.
  unfold assignable.
  destruct (setattr_refused m "_non_persistent_buffers_set" "set"); [discriminate |].
  destruct (setattr_refused m "export" "bool"); [discriminate |].
  intros _. split; reflexivity.
Qed.

Lemma loop_fresh (fuel : nat) (c : ModClass) :
  ModClass_eqb c ClsConv = false ->
  named_modules_loop (S fuel) (fresh_module c) = Some (inr (fresh_module c)).
Proof.
  intros H. cbn. unfold assign_activation, isinstance. cbn. rewrite H. reflexivity.
Qed.

(** With fuel for the depth of a well-formed tree, the loop does not raise
    and computes [walk]. *)
Lemma named_modules_loop_walk (fuel : nat) (m : Module) :
  well_formed m = true ->
  height m <= fuel ->
  named_modules_loop fuel m = Some (inr (walk m)).
Proof.
  revert m. induction fuel as [| fuel IH]; intros m Hwf Hh.
  { destruct m; cbn in Hh; lia. }
  destruct (well_formed_parts m Hwf) as [Hnd [Hact [_ [Hasg _]]]].
  assert (Hchild : forall nc, In nc (modules m) ->
             named_modules_loop fuel (snd nc) = Some (inr (walk (snd nc)))).
  { intros nc Hin. apply IH; [exact (well_formed_child m nc Hwf Hin) |].
    pose proof (height_child m nc Hin). lia. }
  cbn [named_modules_loop]. unfold clear_non_persistent.
  rewrite (proj1 (assignable_parts m Hasg)).
  unfold assign_activation.
  change (isinstance (set_non_persistent m []) ClsConv) with (isinstance m ClsConv).
  change (getattr (set_non_persistent m []) "act") with (getattr m "act").
  destruct (isinstance m ClsConv) eqn:Hc.
  - destruct (act_is_module_lookup m (Hact eq_refl)) as [a [Hg Ha]]. rewrite Hg.
    assert (Hfuel : exists f', fuel = S f').
    { pose proof (height_child m ("act", a) (lookup_in _ _ _ Ha)) as H1.
      cbn [snd] in H1. pose proof (height_pos a).
      destruct fuel; [lia | eexists; reflexivity]. }
    destruct Hfuel as [f' ->].
    assert (Huniq : forall nc, In nc (modules m) ->
                      String.eqb "act" (fst nc) = true -> snd nc = a).
    { intros [n x] Hin Hn. cbn in Hn |- *. apply String.eqb_eq in Hn. subst n.
      pose proof (in_lookup _ _ _ Hnd Hin) as E. rewrite Ha in E. inversion E. reflexivity. }
    destruct m as [c s e st bf at' l]. unfold isinstance in Hc.
    cbn [modules cls] in *. cbn [walk cls export parameters buffers attrs modules].
    unfold isinstance at 3. cbn [cls]. rewrite Hc.
    destruct (isinstance a ClsNNHardswish) eqn:H1;
      [| destruct (isinstance a ClsNNSiLU) eqn:H2];
      unfold set_child, set_modules, set_non_persistent;
      cbn [modules cls non_persistent_buffers_set export parameters buffers attrs];
      try rewrite (update_as_map _ _ _ Hnd).
    + rewrite (visit_children_map _
                 (fun nc => if String.eqb "act" (fst nc)
                            then fresh_module ClsHardswish else walk (snd nc))).
      2:{ intros nc' Hin'. apply in_map_iff in Hin'. destruct Hin' as [nc [<- Hin]].
          destruct (String.eqb "act" (fst nc)) eqn:En; cbn [fst snd]; rewrite ?En.
          - apply loop_fresh. reflexivity.
          - apply Hchild. exact Hin. }
      rewrite map_map. do 3 f_equal. apply map_ext_in. intros nc Hin.
      destruct (String.eqb "act" (fst nc)) eqn:En; cbn [fst snd andb]; rewrite ?En.
      * rewrite (Huniq nc Hin En). unfold is_nn_activation, export_friendly.
        rewrite H1. reflexivity.
      * reflexivity.
    + rewrite (visit_children_map _
                 (fun nc => if String.eqb "act" (fst nc)
                            then fresh_module ClsSiLU else walk (snd nc))).
      2:{ intros nc' Hin'. apply in_map_iff in Hin'. destruct Hin' as [nc [<- Hin]].
          destruct (String.eqb "act" (fst nc)) eqn:En; cbn [fst snd]; rewrite ?En.
          - apply loop_fresh. reflexivity.
          - apply Hchild. exact Hin. }
      rewrite map_map. do 3 f_equal. apply map_ext_in. intros nc Hin.
      destruct (String.eqb "act" (fst nc)) eqn:En; cbn [fst snd andb]; rewrite ?En.
      * rewrite (Huniq nc Hin En). unfold is_nn_activation, export_friendly.
        rewrite H1, H2. reflexivity.
      * reflexivity.
    + rewrite (visit_children_map _ (fun nc => walk (snd nc)) l Hchild).
      do 3 f_equal. apply map_ext_in. intros nc Hin.
      destruct (String.eqb "act" (fst nc)) eqn:En; cbn [andb]; [| reflexivity].
      rewrite (Huniq nc Hin En). unfold is_nn_activation.
      rewrite H1, H2. reflexivity.
  - change (modules (set_non_persistent m [])) with (modules m).
    rewrite (visit_children_map _ (fun nc => walk (snd nc)) _ Hchild).
    destruct m as [c s e st bf at' l]. unfold isinstance in Hc. cbn [cls] in Hc.
    unfold set_modules, set_non_persistent.
    cbn [walk modules cls non_persistent_buffers_set export parameters buffers attrs].
    unfold isinstance. cbn [cls]. rewrite Hc. reflexivity.
Qed.

Lemma lookup_map {A B : Type} (g : string * A -> B) (k : string) (v : A)
    (l : list (string * A)) :
  lookup k l = Some v ->
  lookup k (map (fun nc => (fst nc, g nc)) l) = Some (g (k, v)).
Proof.
  induction l as [| [k' v'] l IH]; [discriminate |]. cbn [lookup map fst].
  destruct (String.eqb_spec k k') as [-> | Hne].
  - intros H; inversion H; subst. reflexivity.
  - exact IH.
Qed.

Lemma keys_map {A B : Type} (g : string * A -> B) (l : list (string * A)) :
  keys (map (fun nc => (fst nc, g nc)) l) = keys l.
Proof. unfold keys. rewrite map_map. reflexivity. Qed.

Lemma well_formed_leaf (a : Module) :
  well_formed a = true -> is_nn_activation a = true ->
  parameters a = [] /\ buffers a = [] /\ modules a = [].
Proof.
  intros H Ha. destruct (well_formed_parts a H) as [_ [_ [Hl _]]].
  specialize (Hl Ha). unfold is_leaf in Hl.
  destruct (parameters a); [| discriminate].
  destruct (buffers a); [| discriminate].
  destruct (modules a); [| discriminate].
  repeat split.
Qed.

Lemma export_friendly_fresh (a : Module) :
  is_nn_activation a = true ->
  export_friendly a = fresh_module ClsHardswish
  \/ export_friendly a = fresh_module ClsSiLU.
Proof.
  unfold is_nn_activation, export_friendly.
  destruct (isinstance a ClsNNHardswish); [left; reflexivity |].
  destruct (isinstance a ClsNNSiLU); [right; reflexivity | discriminate].
Qed.

(** What [walk] does at each path of a well-formed tree. *)
Lemma walk_at (p : list string) (m n : Module) :
  well_formed m = true ->
  get m p = Some n ->
  exists n',
    get (walk m) p = Some n'
    /\ non_persistent_buffers_set n' = []
    /\ parameters n' = parameters n
    /\ buffers n' = buffers n
    /\ keys (modules n') = keys (modules n)
    /\ (if replaced_activation m p
        then n' = export_friendly n
        else cls n' = cls n /\ attrs n' = attrs n /\ export n' = export n).
Proof.
  revert m. induction p as [| name p IH]; intros m Hwf Hget.
  - cbn in Hget. inversion Hget; subst n. exists (walk m).
    destruct m as [c s e st bf at' l]. cbn [get walk replaced_activation].
    cbn [non_persistent_buffers_set parameters buffers modules cls attrs export].
    rewrite keys_map. repeat split.
  - cbn [get] in Hget.
    destruct (lookup name (modules m)) as [c |] eqn:Hl; [| discriminate].
    pose proof (well_formed_child m (name, c) Hwf (lookup_in _ _ _ Hl)) as Hwc.
    cbn [snd] in Hwc.
    cbn [get replaced_activation]. rewrite Hl.
    assert (Hlw : lookup name (modules (walk m))
                  = Some (if isinstance m ClsConv && String.eqb "act" name
                             && is_nn_activation c
                          then export_friendly c else walk c)).
    { destruct m as [c0 s e st bf at' l]. cbn [walk modules] in *.
      rewrite (lookup_map
                 (fun nc => if isinstance _ ClsConv && String.eqb "act" (fst nc)
                               && is_nn_activation (snd nc)
                            then export_friendly (snd nc) else walk (snd nc))
                 name c l Hl).
      reflexivity. }
    rewrite Hlw.
    destruct (isinstance m ClsConv && String.eqb "act" name && is_nn_activation c)
      eqn:Hrep.
    + apply andb_true_iff in Hrep. destruct Hrep as [_ Hnn].
      destruct (well_formed_leaf c Hwc Hnn) as [Hst [Hbf Hmods]].
      destruct p as [| x p].
      * cbn in Hget. inversion Hget; subst n. exists (export_friendly c).
        cbn [get]. split; [reflexivity |].
        destruct (export_friendly_fresh c Hnn) as [-> | ->];
          rewrite Hst, Hbf, Hmods; repeat split.
      * cbn [get] in Hget. rewrite Hmods in Hget. discriminate.
    + destruct (IH c Hwc Hget) as [n' [G [Hb [Ho [Hbf [Hk Hr]]]]]].
      exists n'. split; [exact G |]. split; [exact Hb |]. split; [exact Ho |].
      split; [exact Hbf |]. split; [exact Hk |].
      destruct p as [| x p]; [| exact Hr].
      cbn [replaced_activation] in Hr. exact Hr.
Qed.

Lemma lookup_update_same {A : Type} (k : string) (v c : A) (l : list (string * A)) :
  lookup k l = Some c -> lookup k (update k v l) = Some v.
Proof.
  induction l as [| [k' v'] l IH]; [discriminate |]. cbn [lookup update].
  destruct (String.eqb_spec k k') as [-> | Hne]; cbn [lookup].
  - rewrite String.eqb_refl. reflexivity.
  - destruct (String.eqb_spec k k'); [contradiction |]. exact IH.
Qed.

Lemma lookup_update_other {A : Type} (k k2 : string) (v : A) (l : list (string * A)) :
  k2 <> k -> lookup k2 (update k v l) = lookup k2 l.
Proof.
  intros Hne. induction l as [| [k' v'] l IH]; [reflexivity |]. cbn [lookup update].
  destruct (String.eqb_spec k k') as [-> | Hne']; cbn [lookup].
  - destruct (String.eqb_spec k2 k'); [contradiction | reflexivity].
  - rewrite IH. reflexivity.
Qed.

Lemma keys_update {A : Type} (k : string) (v : A) (l : list (string * A)) :
  keys (update k v l) = keys l.
Proof.
  induction l as [| [k' v'] l IH]; [reflexivity |]. cbn [update].
  destruct (String.eqb k k'); cbn; [reflexivity |].
  unfold keys in IH. rewrite IH. reflexivity.
Qed.

Lemma set_last_eq {A : Type} (l rest : list (string * A)) (name : string) (x v : A) :
  rev l = (name, x) :: rest ->
  l = rev rest ++ [(name, x)] /\ set_last l v = rev rest ++ [(name, v)].
Proof.
  intros H. assert (E : l = rev rest ++ [(name, x)]).
  { rewrite <- (rev_involutive l), H. reflexivity. }
  split; [exact E |]. unfold set_last. rewrite H. rewrite E at 1.
  rewrite removelast_last. reflexivity.
Qed.

Lemma lookup_app_last {A : Type} (a : list (string * A)) (name k : string) (v : A) :
  ~ In name (keys a) ->
  lookup k (a ++ [(name, v)])
  = if String.eqb k name then Some v else lookup k a.
Proof.
  intros Hn. induction a as [| [k' v'] a IH]; cbn [app lookup].
  - destruct (String.eqb k name); reflexivity.
  - destruct (String.eqb_spec k k') as [-> | Hne].
    + destruct (String.eqb_spec k' name) as [-> | _]; [| reflexivity].
      exfalso. apply Hn. left. reflexivity.
    + apply IH. intros Hin. apply Hn. right. exact Hin.
Qed.

Lemma update_app_last {A : Type} (a : list (string * A)) (name : string) (x v : A) :
  ~ In name (keys a) ->
  update name v (a ++ [(name, x)]) = a ++ [(name, v)].
Proof.
  intros Hn. induction a as [| [k' v'] a IH]; cbn [app update].
  - rewrite String.eqb_refl. reflexivity.
  - destruct (String.eqb_spec name k') as [-> | Hne].
    + exfalso. apply Hn. left. reflexivity.
    + rewrite IH; [reflexivity |]. intros Hin. apply Hn. right. exact Hin.
Qed.

Lemma nodupb_app_last (a : list string) (name : string) :
  nodupb (a ++ [name]) = true -> ~ In name a.
Proof.
  induction a as [| x a IH]; [intros _ [] |]. cbn [app nodupb].
  intros H. apply andb_true_iff in H. destruct H as [Hx Ha].
  intros [-> | Hin]; [| exact (IH Ha Hin)].
  apply negb_true_iff in Hx. apply existsb_eqb_in in Hx. apply Hx.
  apply in_or_app. right. left. reflexivity.
Qed.

Lemma path_eqb_refl (p : list string) : path_eqb p p = true.
Proof. unfold path_eqb. destruct (list_eq_dec string_dec p p); congruence. Qed.

Lemma path_eqb_neq (p q : list string) : p <> q -> path_eqb p q = false.
Proof. unfold path_eqb. destruct (list_eq_dec string_dec p q); congruence. Qed.

(** When [m.<name>] is a module, it is the submodule registered under the
    name, and the name is in no other registry. *)
Lemma getattr_module (m c : Module) (name : string) :
  getattr m name = inr (AttrModule c) <->
  lookup name (attrs m) = None /\ lookup name (parameters m) = None
  /\ lookup name (buffers m) = None /\ lookup name (modules m) = Some c.
Proof.
  unfold getattr. split.
  - destruct (lookup name (attrs m)); [discriminate |].
    destruct (lookup name (parameters m)); [discriminate |].
    destruct (lookup name (buffers m)); [discriminate |].
    destruct (lookup name (modules m)); [| discriminate].
    intros H. inversion H. repeat split.
  - intros [-> [-> [-> ->]]]. reflexivity.
Qed.

(** A module that can be subscripted is a container. *)
Lemma subscript_last_container (seq last : Module) (lname : string) :
  subscript_last seq = inr (lname, last) ->
  (cls seq = ClsSequential \/ cls seq = ClsModuleList)
  /\ isinstance seq ClsConv = false /\ is_nn_activation seq = false.
Proof.
  unfold subscript_last, is_nn_activation, isinstance.
  destruct (cls seq); try discriminate; intros _;
    (split; [auto | split; reflexivity]).
Qed.

(** With distinct names, [seq[-1]] is the submodule registered under the
    name that [subscript_last] gives, and replacing it is an [update]. *)
Lemma subscript_last_store (seq last v : Module) (lname : string) :
  nodupb (keys (modules seq)) = true ->
  subscript_last seq = inr (lname, last) ->
  lookup lname (modules seq) = Some last
  /\ store_last seq v = update lname v (modules seq).
Proof.
  intros Hnd. unfold subscript_last, store_last.
  destruct (cls seq); try discriminate.
  - destruct (rev (modules seq)) as [| [n x] rest] eqn:Hrev; [discriminate |].
    intros H. inversion H; subst n x. clear H.
    destruct (set_last_eq (modules seq) rest lname last v Hrev) as [El Es].
    assert (Hnot : ~ In lname (keys (rev rest))).
    { apply nodupb_app_last. rewrite El in Hnd. unfold keys in *.
      rewrite map_app in Hnd. exact Hnd. }
    rewrite Es, El.
    rewrite (lookup_app_last _ _ _ _ Hnot), String.eqb_refl.
    rewrite (update_app_last _ _ _ _ Hnot). split; reflexivity.
  - destruct (modules seq) as [| nc l] eqn:Hl; [discriminate |].
    destruct (lookup (str_nat (length (nc :: l) - 1)) (nc :: l)) as [c |] eqn:Hk;
      [| discriminate].
    intros H. inversion H; subst lname c. split; [exact Hk | reflexivity].
Qed.

(** Line 96 changes the [export] attribute of [model.model[-1]] and nothing
    else. *)
Lemma set_detect_export_at (root1 seq last : Module) (lname : string)
    (grid : bool) :
  nodupb (keys (modules seq)) = true ->
  getattr root1 "model" = inr (AttrModule seq) ->
  subscript_last seq = inr (lname, last) ->
  setattr_refused last "export" "bool" = None ->
  exists root',
    set_detect_export root1 grid = inr root'
    /\ forall p n1,
        get root1 p = Some n1 ->
        exists n',
          get root' p = Some n'
          /\ cls n' = cls n1
          /\ non_persistent_buffers_set n' = non_persistent_buffers_set n1
          /\ parameters n' = parameters n1
          /\ buffers n' = buffers n1
          /\ attrs n' = attrs n1
          /\ keys (modules n') = keys (modules n1)
          /\ export n' = (if path_eqb p ["model"; lname]
                          then Some (negb grid) else export n1)
          /\ (path_eqb p ["model"; lname] = false ->
              modules n1 = [] -> n' = n1).
Proof.
  intros Hnd Hg Hsub Hset.
  unfold set_detect_export. rewrite Hg, Hsub, Hset.
  eexists. split; [reflexivity |].
  destruct (subscript_last_store seq last (set_export last (negb grid)) lname
              Hnd Hsub) as [Hl Hs].
  rewrite Hs.
  apply getattr_module in Hg. destruct Hg as [_ [_ [_ Hm]]].
  intros p n1 Hget.
  destruct p as [| k q].
  { cbn in Hget. inversion Hget; subst n1. eexists. split; [reflexivity |].
    unfold set_child, set_modules.
    cbn [cls non_persistent_buffers_set parameters buffers attrs modules export].
    rewrite keys_update.
    rewrite path_eqb_neq by discriminate. repeat split.
    intros _ E. rewrite E in Hm. discriminate Hm. }
  cbn [get] in Hget |- *. unfold set_child, set_modules at 1. cbn [modules].
  destruct (String.eqb_spec k "model") as [-> | Hk].
  2:{ rewrite lookup_update_other by exact Hk.
      destruct (lookup k (modules root1)) as [c |]; [| discriminate].
      exists n1. split; [exact Hget |].
      rewrite path_eqb_neq by congruence. repeat split. }
  rewrite (lookup_update_same _ _ _ _ Hm). rewrite Hm in Hget.
  destruct q as [| k2 r].
  { cbn in Hget. inversion Hget; subst n1. eexists. split; [reflexivity |].
    unfold set_modules.
    cbn [cls non_persistent_buffers_set parameters buffers attrs modules export].
    rewrite path_eqb_neq by discriminate.
    do 5 (split; [reflexivity |]).
    split; [apply keys_update |].
    split; [reflexivity |].
    intros _ E. rewrite E in Hl. discriminate Hl. }
  cbn [get] in Hget |- *. unfold set_modules. cbn [modules].
  destruct (String.eqb_spec k2 lname) as [-> | Hk2].
  2:{ rewrite lookup_update_other by exact Hk2.
      destruct (lookup k2 (modules seq)) as [c |]; [| discriminate].
      exists n1. split; [exact Hget |].
      rewrite path_eqb_neq by congruence. repeat split. }
  rewrite (lookup_update_same _ _ _ _ Hl). rewrite Hl in Hget.
  destruct r as [| k3 r].
  - cbn in Hget. inversion Hget; subst n1. eexists. split; [reflexivity |].
    rewrite path_eqb_refl. unfold set_export.
    cbn [cls non_persistent_buffers_set parameters buffers attrs modules export].
    repeat split. discriminate.
  - cbn [get] in Hget |- *. unfold set_export. cbn [modules].
    exists n1. split; [exact Hget |].
    rewrite path_eqb_neq by discriminate. repeat split.
Qed.

Lemma get_app (m : Module) (p q : list string) :
  get m (p ++ q) = match get m p with Some x => get x q | None => None end.
Proof.
  revert m. induction p as [| k p IH]; intros m; [reflexivity |].
  cbn [app get]. destruct (lookup k (modules m)); [apply IH | reflexivity].
Qed.

Lemma lookup_keys {A : Type} (k : string) (l : list (string * A)) :
  In k (keys l) -> exists v, lookup k l = Some v.
Proof.
  induction l as [| [k' v'] l IH]; [intros [] |]. cbn [keys map fst lookup].
  destruct (String.eqb_spec k k') as [-> | Hne]; [eexists; reflexivity |].
  intros [E | Hin]; [congruence | exact (IH Hin)].
Qed.

Lemma keys_lookup {A : Type} (k : string) (v : A) (l : list (string * A)) :
  lookup k l = Some v -> In k (keys l).
Proof.
  intros H. apply lookup_in in H. unfold keys. apply in_map_iff.
  exists (k, v). split; [reflexivity | exact H].
Qed.

(** Two trees with the same submodule names along every path of the first
    have the same paths. *)
Lemma paths_back (m m' : Module) :
  (forall p n, get m p = Some n ->
     exists n', get m' p = Some n' /\ keys (modules n') = keys (modules n)) ->
  forall p n', get m' p = Some n' -> exists n, get m p = Some n.
Proof.
  intros H p. induction p as [| k p IH] using rev_ind; intros n' Hget.
  - exists m. reflexivity.
  - rewrite get_app in Hget.
    destruct (get m' p) as [x' |] eqn:Hx'; [| discriminate].
    destruct (IH x' eq_refl) as [x Hx].
    destruct (H p x Hx) as [x2 [Hx2 Hk]].
    rewrite Hx' in Hx2. inversion Hx2; subst x2.
    cbn [get] in Hget.
    destruct (lookup k (modules x')) as [c' |] eqn:Hc'; [| discriminate].
    apply keys_lookup in Hc'. rewrite Hk in Hc'.
    destruct (lookup_keys k (modules x) Hc') as [c Hc].
    exists c. rewrite get_app, Hx. cbn [get]. rewrite Hc. reflexivity.
Qed.

Lemma replaced_is_nn (p : list string) (root n : Module) :
  replaced_activation root p = true -> get root p = Some n ->
  is_nn_activation n = true.
Proof.
  revert root. induction p as [| k p IH]; intros root Hrep Hget; [discriminate |].
  cbn [replaced_activation get] in *.
  destruct (lookup k (modules root)) as [c |]; [| discriminate].
  destruct p as [| k2 p].
  - cbn in Hget. inversion Hget; subst c.
    apply andb_true_iff in Hrep. destruct Hrep as [_ Hnn]. exact Hnn.
  - exact (IH c Hrep Hget).
Qed.

Lemma flat_map_map_in {A B C : Type} (f : A -> B) (g : B -> list C)
    (h : A -> list C) (l : list A) :
  (forall a, In a l -> g (f a) = h a) -> flat_map g (map f l) = flat_map h l.
Proof.
  induction l as [| a l IH]; intros H; [reflexivity |]. cbn.
  rewrite (H a (or_introl eq_refl)), IH; [reflexivity |].
  intros b Hb. apply H. right. exact Hb.
Qed.

Lemma filter_all {A : Type} (f : A -> bool) (l : list A) :
  (forall a, f a = true) -> filter f l = l.
Proof.
  intros H. induction l as [| a l IH]; [reflexivity |]. cbn.
  rewrite (H a), IH. reflexivity.
Qed.

(** Once the loop has emptied every [_non_persistent_buffers_set], the
    state dict lists every parameter and every buffer. *)
Lemma state_dict_walk (m : Module) :
  well_formed m = true ->
  forall prefix, state_dict_of prefix (walk m) = tensors_of prefix m.
Proof.
  induction m as [c s e st bf at' l IH] using Module_induction. intros Hwf prefix.
  cbn [walk state_dict_of tensors_of parameters buffers modules cls export attrs].
  unfold own_state, persistent.
  cbn [parameters buffers non_persistent_buffers_set existsb negb].
  rewrite (filter_all _ bf) by reflexivity.
  f_equal.
  apply flat_map_map_in. intros nc Hin. cbn [fst snd].
  pose proof (well_formed_child _ nc Hwf Hin) as Hwc.
  destruct (isinstance _ ClsConv && String.eqb "act" (fst nc) && is_nn_activation (snd nc))
    eqn:Hrep.
  - apply andb_true_iff in Hrep. destruct Hrep as [_ Hnn].
    destruct (well_formed_leaf (snd nc) Hwc Hnn) as [Hst [Hbf Hmods]].
    destruct (snd nc) as [c1 s1 e1 st1 bf1 at1 l1]. cbn [parameters buffers modules] in *.
    subst.
    destruct (export_friendly_fresh _ Hnn) as [-> | ->]; reflexivity.
  - rewrite Forall_forall in IH. exact (IH nc Hin Hwc _).
Qed.

Lemma flat_map_update {A B : Type} (g : string * A -> list B) (k : string)
    (v c : A) (l : list (string * A)) :
  lookup k l = Some c -> (forall k', g (k', v) = g (k', c)) ->
  flat_map g (update k v l) = flat_map g l.
Proof.
  intros Hl Hg. induction l as [| [k' v'] l IH]; [reflexivity |].
  cbn [lookup update] in *.
  destruct (String.eqb k k').
  - inversion Hl; subst. cbn. rewrite Hg. reflexivity.
  - cbn. rewrite (IH Hl). reflexivity.
Qed.

Lemma state_dict_set_export (m : Module) (b : bool) (prefix : string) :
  state_dict_of prefix (set_export m b) = state_dict_of prefix m.
Proof. destruct m; reflexivity. Qed.

(** Line 96 leaves the state dict as it is. *)
Lemma state_dict_set_detect_export (root1 root' : Module) (grid : bool) :
  set_detect_export root1 grid = inr root' ->
  forall prefix, state_dict_of prefix root' = state_dict_of prefix root1.
Proof.
  unfold set_detect_export.
  destruct (getattr root1 "model") as [e | [a | t | seq]] eqn:Hg;
    [discriminate | discriminate | |].
  { destruct (tensor_last_refused t); [discriminate |].
    intros H. inversion H. reflexivity. }
  apply getattr_module in Hg. destruct Hg as [_ [_ [_ Hm]]].
  destruct (subscript_last seq) as [e | [lname last]] eqn:Hsub; [discriminate |].
  destruct (setattr_refused last "export" "bool"); [discriminate |].
  intros H prefix. inversion H; subst root'. clear H.
  assert (Hstore : forall pre,
             flat_map (fun nc => state_dict_of (pre ++ fst nc ++ ".")%string (snd nc))
                      (store_last seq (set_export last (negb grid)))
             = flat_map (fun nc => state_dict_of (pre ++ fst nc ++ ".")%string (snd nc))
                        (modules seq)).
  { intros pre. revert Hsub. unfold subscript_last, store_last.
    destruct (cls seq); try discriminate.
    - destruct (rev (modules seq)) as [| [n x] rest] eqn:Hrev; [discriminate |].
      intros H. inversion H; subst n x. clear H.
      destruct (set_last_eq (modules seq) rest lname last
                  (set_export last (negb grid)) Hrev) as [El Es].
      rewrite Es, El, !flat_map_app. f_equal.
      cbn [flat_map fst snd]. rewrite state_dict_set_export. reflexivity.
    - destruct (modules seq) as [| nc l] eqn:Hl; [discriminate |].
      destruct (lookup (str_nat (length (nc :: l) - 1)) (nc :: l)) as [c |] eqn:Hk;
        [| discriminate].
      intros H. inversion H; subst lname c.
      apply (flat_map_update _ _ _ last _ Hk).
      intros k'. cbn [fst snd]. apply state_dict_set_export. }
  destruct root1 as [c s e st bf at' l]. unfold set_child, set_modules.
  cbn [state_dict_of modules cls export attrs non_persistent_buffers_set] in *.
  f_equal. apply (flat_map_update _ _ _ seq l Hm).
  intros k'. cbn [fst snd]. destruct seq as [c1 s1 e1 st1 bf1 at1 l1].
  cbn [state_dict_of modules] in *. f_equal. apply Hstore.
Qed.

(** The traversal keeps what the attribute protocol looks at. *)
Lemma setattr_refused_walk (m : Module) (name typename : string) :
  setattr_refused (walk m) name typename = setattr_refused m name typename.
Proof.
  destruct m as [c s e st bf at' l]. unfold setattr_refused.
  cbn [walk parameters buffers modules]. rewrite keys_map. reflexivity.
Qed.

Lemma getattr_walk (m c : Module) (name : string) :
  getattr m name = inr (AttrModule c) -> name <> "act" ->
  getattr (walk m) name = inr (AttrModule (walk c)).
Proof.
  intros Hg Hne. apply getattr_module in Hg. destruct Hg as [Ha [Hp [Hb Hm]]].
  apply getattr_module.
  destruct m as [c0 s e st bf at' l]. cbn [walk attrs parameters buffers modules] in *.
  repeat (split; [assumption |]).
  rewrite (lookup_map
             (fun nc => if isinstance _ ClsConv && String.eqb "act" (fst nc)
                           && is_nn_activation (snd nc)
                        then export_friendly (snd nc) else walk (snd nc))
             name c l Hm).
  cbn [fst snd].
  destruct (String.eqb_spec "act" name) as [E | _]; [congruence |].
  rewrite andb_false_r. reflexivity.
Qed.

Lemma subscript_last_walk (seq last : Module) (lname : string) :
  subscript_last seq = inr (lname, last) ->
  subscript_last (walk seq) = inr (lname, walk last).
Proof.
  intros Hsub.
  destruct (subscript_last_container seq last lname Hsub) as [_ [Hnc _]].
  revert Hsub. unfold subscript_last.
  destruct seq as [c s e st bf at' l]. unfold isinstance in Hnc.
  cbn [walk cls modules] in *. unfold isinstance. cbn [cls]. rewrite Hnc.
  cbn [andb].
  destruct c; try discriminate.
  - rewrite <- map_rev.
    destruct (rev l) as [| [n x] rest]; [discriminate |].
    intros H. inversion H; subst n x. reflexivity.
  - destruct l as [| nc l]; [discriminate |]. cbn [map].
    change ((fst nc, walk (snd nc)) :: map (fun nc0 => (fst nc0, walk (snd nc0))) l)
      with (map (fun nc0 => (fst nc0, walk (snd nc0))) (nc :: l)).
    rewrite length_map.
    destruct (lookup (str_nat (length (nc :: l) - 1)) (nc :: l)) as [x |] eqn:Hk;
      [| discriminate].
    intros H. inversion H; subst lname x.
    rewrite (lookup_map (fun nc0 => walk (snd nc0)) _ last (nc :: l) Hk).
    reflexivity.
Qed.

(** The export-mode update of a well-formed tree. *)
Lemma update_module_tree_at (grid : bool) (root : Module) (last : list string) :
  well_formed root = true ->
  terminal_path root = Some last ->
  exists root',
    update_module_tree grid root = Some (inr root')
    /\ (forall p n,
        get root p = Some n ->
        exists n',
          get root' p = Some n'
          /\ non_persistent_buffers_set n' = []
          /\ parameters n' = parameters n
          /\ buffers n' = buffers n
          /\ keys (modules n') = keys (modules n)
          /\ (if replaced_activation root p
              then n' = export_friendly n
              else cls n' = cls n /\ attrs n' = attrs n
                   /\ export n' = (if path_eqb p last
                                   then Some (negb grid) else export n)))
    /\ (forall prefix, state_dict_of prefix root' = tensors_of prefix root).
Proof.
  intros Hwf Hterm. unfold terminal_path in Hterm.
  destruct (getattr root "model") as [e | [a | t | seq]] eqn:Hg; try discriminate.
  destruct (subscript_last seq) as [e | [lname lastm]] eqn:Hsub; [discriminate |].
  inversion Hterm; subst last. clear Hterm.
  unfold update_module_tree.
  rewrite (named_modules_loop_walk (height root) root Hwf (le_n _)).
  pose proof Hg as Hg0. apply getattr_module in Hg0. destruct Hg0 as [_ [_ [_ Hm]]].
  pose proof (well_formed_child root ("model", seq) Hwf (lookup_in _ _ _ Hm)) as Hwseq.
  cbn [snd] in Hwseq.
  destruct (well_formed_parts seq Hwseq) as [Hnd _].
  destruct (subscript_last_container seq lastm lname Hsub) as [_ [Hnotconv _]].
  destruct (subscript_last_store seq lastm lastm lname Hnd Hsub) as [Hl _].
  pose proof (well_formed_child seq (lname, lastm) Hwseq (lookup_in _ _ _ Hl)) as Hwlast.
  cbn [snd] in Hwlast.
  destruct (well_formed_parts lastm Hwlast) as [_ [_ [_ [Hasg _]]]].
  (* the tree after the loop *)
  assert (Hnd1 : nodupb (keys (modules (walk seq))) = true).
  { destruct seq as [c0 s e st bf at' l]. cbn [walk modules] in *.
    rewrite keys_map. exact Hnd. }
  assert (Hset1 : setattr_refused (walk lastm) "export" "bool" = None).
  { rewrite setattr_refused_walk. exact (proj2 (assignable_parts lastm Hasg)). }
  destruct (set_detect_export_at (walk root) (walk seq) (walk lastm) lname grid
              Hnd1 (getattr_walk root seq "model" Hg ltac:(discriminate))
              (subscript_last_walk seq lastm lname Hsub) Hset1)
    as [root' [Eroot' Hat]].
  exists root'. split; [rewrite Eroot'; reflexivity |].
  split.
  2:{ intros prefix.
      rewrite (state_dict_set_detect_export _ _ _ Eroot' prefix).
      apply state_dict_walk. exact Hwf. }
  intros p n Hget.
  destruct (walk_at p root n Hwf Hget) as [nw [Gw [Hb [Ho [Hbf [Hk Hr]]]]]].
  destruct (Hat p nw Gw)
    as [n' [G' [Hc' [Hb' [Ho' [Hbf' [Ha' [Hk' [He' Hsame]]]]]]]]].
  exists n'. split; [exact G' |]. split; [congruence |]. split; [congruence |].
  split; [congruence |]. split; [congruence |].
  destruct (replaced_activation root p) eqn:Hrep.
  - assert (Hp : path_eqb p ["model"; lname] = false).
    { apply path_eqb_neq. intros ->.
      cbn [replaced_activation] in Hrep. rewrite Hm in Hrep.
      destruct (lookup lname (modules seq)); [| discriminate].
      rewrite Hnotconv in Hrep. discriminate. }
    subst nw. apply Hsame; [exact Hp |].
    destruct (export_friendly_fresh n (replaced_is_nn p root n Hrep Hget))
      as [-> | ->]; reflexivity.
  - destruct Hr as [Hc [Ha He]].
    split; [congruence |]. split; [congruence |].
    rewrite He'. destruct (path_eqb p ["model"; lname]); congruence.
Qed.

(** C10. On a well-formed model, lines 87-96 return normally, and at every
    path of the module tree the module after the update differs from the
    module before it in three ways only: its non-persistent buffer set is
    empty; if it is the [act] of a [Conv] and of class [nn.Hardswish] or
    [nn.SiLU], it is a new [Hardswish()] or [SiLU()]; if it is
    [model.model[-1]], its [export] attribute is [not opt.grid]. Its class,
    its parameters, its buffers, its other attributes, its [export]
    attribute elsewhere and the names of its submodules are the same, no
    path is added or removed, and the attributes of the model object are
    unchanged. No tensor is touched; what the state dict lists does change
    with the first mutation: after the update it has every parameter and
    every buffer of the model, those that were marked non-persistent
    included. *)
Theorem C10_update_model_frame (grid : bool) (m : Model) (last : list string) :
  well_formed (net m) = true ->
  terminal_path (net m) = Some last ->
  exists m',
    update_model grid m = Some (inr m')
    /\ names m' = names m /\ stride m' = stride m /\ yaml m' = yaml m
    /\ (forall p n,
          get (net m) p = Some n ->
          exists n',
            get (net m') p = Some n'
            /\ non_persistent_buffers_set n' = []
            /\ parameters n' = parameters n
            /\ buffers n' = buffers n
            /\ keys (modules n') = keys (modules n)
            /\ (if replaced_activation (net m) p
                then n' = export_friendly n
                else cls n' = cls n /\ attrs n' = attrs n
                     /\ export n' = (if path_eqb p last
                                     then Some (negb grid) else export n)))
    /\ (forall p n', get (net m') p = Some n' -> exists n, get (net m) p = Some n)
    /\ state_dict m' = tensors_of "" (net m).
Proof.
  intros Hwf Hterm.
  destruct (update_module_tree_at grid (net m) last Hwf Hterm)
    as [root' [E [H Hsd]]].
  exists (mkModel root' (names m) (stride m) (yaml m)).
  unfold update_model. rewrite E. cbn [net names stride yaml].
  do 4 (split; [reflexivity |]). split; [exact H |].
  split; [| exact (Hsd "")].
  apply paths_back. intros p n Hget.
  destruct (H p n Hget) as [n' [G [_ [_ [_ [Hk _]]]]]].
  exists n'. split; assumption.
Qed.

Lemma C10_witness :
  exists m',
    update_model false Sample.model = Some (inr m')
    /\ names m' = names Sample.model
    /\ get (net m') ["model"; "0"; "act"] = Some (fresh_module ClsHardswish).
Proof.
  destruct (C10_update_model_frame false Sample.model ["model"; "3"]
              eq_refl eq_refl) as [m' [E [Hn [_ [_ [H _]]]]]].
  exists m'. split; [exact E |]. split; [exact Hn |].
  destruct (H ["model"; "0"; "act"] (Sample.leaf ClsNNHardswish) eq_refl)
    as [n' [G [_ [_ [_ [_ Hr]]]]]].
  rewrite G. f_equal. exact Hr.
Defined.

(** On the sample model the update replaces the two activations, sets the
    flag of the detection layer, and makes the three buffers that were not
    part of the state dict part of it. *)
Example update_model_sample :
  match update_model false Sample.model with
  | Some (inr m') =>
      get (net m') ["model"; "1"; "act"] = Some (fresh_module ClsSiLU)
      /\ option_map cls (get (net m') ["model"; "2"; "act"])
         = Some (ClsOther "LeakyReLU")
      /\ option_map export (get (net m') ["model"; "3"]) = Some (Some true)
      /\ lookup "model.0.bn.scratch" (state_dict Sample.model) = None
      /\ lookup "model.0.bn.scratch" (state_dict m') = Some (Sample.weight [16%Z])
      /\ length (state_dict m') = length (state_dict Sample.model) + 3
  | _ => False
  end.
Proof. vm_compute. repeat split. Qed.

(** * Further properties of the script *)

(** ** File names *)

(** A string without the pattern is left as it is by [str.replace]. *)
Lemma replace_from_absent (old new s : string) :
  PyStr.contains s old = false -> PyStr.replace_from old new 0 s = s.
Proof.
  induction s as [| c t IH]; intros H; [reflexivity |].
  cbn [PyStr.contains] in H. apply orb_false_iff in H. destruct H as [H1 H2].
  cbn [PyStr.replace_from]. rewrite H1, (IH H2). reflexivity.
Qed.

(** X1. A weights path in which ".pt" does not occur gives the three
    exports the weights path itself as file name. *)
Theorem filenames_without_extension (weights : string) :
  PyStr.contains weights ".pt" = false ->
  torchscript_filename weights = weights
  /\ onnx_filename weights = weights
  /\ coreml_filename weights = weights.
Proof.
  intros H. unfold torchscript_filename, onnx_filename, coreml_filename,
    PyStr.replace.
  repeat split; apply replace_from_absent; exact H.
Qed.

Lemma filenames_without_extension_witness :
  torchscript_filename "yolov3.weights" = "yolov3.weights"
  /\ onnx_filename "yolov3.weights" = "yolov3.weights"
  /\ coreml_filename "yolov3.weights" = "yolov3.weights".
Proof. apply filenames_without_extension. reflexivity. Defined.

(** X2. A weights path whose only ".pt" is its extension gives the three
    file names by substitution of the extension. *)
Theorem filenames_of_plain_path (stem : string) :
  PyStr.contains stem ".pt" = false ->
  torchscript_filename (stem ++ ".pt") = (stem ++ ".torchscript.pt")%string
  /\ onnx_filename (stem ++ ".pt") = (stem ++ ".onnx")%string
  /\ coreml_filename (stem ++ ".pt") = (stem ++ ".mlmodel")%string.
Proof.
  intros H. unfold torchscript_filename, onnx_filename, coreml_filename.
  repeat split; apply replace_trailing_extension; exact H.
Qed.

Lemma filenames_of_plain_path_witness :
  torchscript_filename ("./weights/yolov3" ++ ".pt")
  = ("./weights/yolov3" ++ ".torchscript.pt")%string
  /\ onnx_filename ("./weights/yolov3" ++ ".pt") = ("./weights/yolov3" ++ ".onnx")%string
  /\ coreml_filename ("./weights/yolov3" ++ ".pt")
     = ("./weights/yolov3" ++ ".mlmodel")%string.
Proof. apply filenames_of_plain_path. reflexivity. Defined.

(** ** Directory and file name of the quantized ONNX export *)

Lemma append_assoc (a b c : string) : ((a ++ b) ++ c)%string = (a ++ b ++ c)%string.
Proof. induction a as [| x a IH]; [reflexivity |]. cbn. rewrite IH. reflexivity. Qed.

Lemma split_from_cons (sep : ascii) (acc s : string) :
  exists p rest, PyStr.split_from sep acc s = p :: rest.
Proof.
  revert acc. induction s as [| c t IH]; intros acc; cbn.
  - eexists; eexists; reflexivity.
  - destruct (Ascii.eqb c sep); [eexists; eexists; reflexivity | apply IH].
Qed.

(** Joining the pieces with the separator gives the string back. *)
Lemma join_split_from (sep : ascii) (acc s : string) :
  String.concat (String sep EmptyString) (PyStr.split_from sep acc s)
  = (acc ++ s)%string.
Proof.
  revert acc. induction s as [| c t IH]; intros acc; cbn [PyStr.split_from].
  - cbn. rewrite append_nil_r. reflexivity.
  - destruct (Ascii.eqb_spec c sep) as [-> | Hne].
    + destruct (split_from_cons sep EmptyString t) as [p [rest E]].
      rewrite E.
      change (String.concat (String sep EmptyString) (acc :: p :: rest))
        with (acc ++ String sep EmptyString
              ++ String.concat (String sep EmptyString) (p :: rest))%string.
      rewrite <- E, (IH EmptyString). reflexivity.
    + rewrite IH, append_assoc. reflexivity.
Qed.

Lemma concat_snoc (sep x : string) (l : list string) :
  l <> [] ->
  String.concat sep (l ++ [x]) = (String.concat sep l ++ sep ++ x)%string.
Proof.
  induction l as [| a l IH]; intros H; [contradiction H; reflexivity |].
  destruct l as [| b l].
  - reflexivity.
  - change (String.concat sep ((a :: b :: l) ++ [x]))
      with (a ++ sep ++ String.concat sep ((b :: l) ++ [x]))%string.
    rewrite IH by discriminate.
    change (String.concat sep (a :: b :: l))
      with (a ++ sep ++ String.concat sep (b :: l))%string.
    rewrite !append_assoc. reflexivity.
Qed.

(** Without the separator there is one piece. *)
Lemma split_from_absent (acc s : string) :
  PyStr.contains s "/" = false ->
  PyStr.split_from "/" acc s = [(acc ++ s)%string].
Proof.
  revert acc. induction s as [| c t IH]; intros acc H; cbn [PyStr.split_from].
  - rewrite append_nil_r. reflexivity.
  - cbn [PyStr.contains] in H. apply orb_false_iff in H. destruct H as [H1 H2].
    unfold PyStr.startswith in H1. cbn [String.prefix] in H1.
    destruct (Ascii.eqb_spec c "/") as [-> | Hne].
    + destruct (ascii_dec "/" "/") as [_ | n]; [| contradiction n; reflexivity].
      destruct t; discriminate H1.
    + rewrite (IH _ H2), append_assoc. reflexivity.
Qed.

(** With the separator there are at least two pieces. *)
Lemma split_from_present (acc s : string) :
  PyStr.contains s "/" = true ->
  exists p q rest, PyStr.split_from "/" acc s = p :: q :: rest.
Proof.
  revert acc. induction s as [| c t IH]; intros acc H; [discriminate H |].
  cbn [PyStr.split_from].
  destruct (Ascii.eqb_spec c "/") as [-> | Hne].
  - destruct (split_from_cons "/" EmptyString t) as [q [rest E]]. rewrite E.
    eexists; eexists; eexists; reflexivity.
  - apply IH. cbn [PyStr.contains] in H. apply orb_true_iff in H.
    destruct H as [H | H]; [| exact H].
    unfold PyStr.startswith in H. cbn [String.prefix] in H.
    destruct (ascii_dec "/" c) as [E | _]; [| discriminate H].
    contradiction Hne. symmetry. exact E.
Qed.

(** X3. Lines 121-122 cut the ONNX file name at its last "/": joined by
    "/", [save_dir] and [save_name] give the file name back when it has a
    "/"; when it has none, [save_dir] is empty and [save_name] is the whole
    name. Joining all the pieces of the split always gives the name back. *)
Theorem save_dir_and_name (f : string) :
  PyStr.join "/" (PyStr.split f "/") = f
  /\ (if PyStr.contains f "/"
      then f = (onnx_save_dir f ++ "/" ++ onnx_save_name f)%string
      else onnx_save_dir f = EmptyString /\ onnx_save_name f = f).
Proof.
  assert (J : PyStr.join "/" (PyStr.split f "/") = f).
  { unfold PyStr.join, PyStr.split. apply (join_split_from "/" EmptyString f). }
  split; [exact J |].
  unfold onnx_save_dir, onnx_save_name, PyStr.join, PyStr.split in *.
  destruct (PyStr.contains f "/") eqn:Hc.
  - destruct (split_from_present EmptyString f Hc) as [p [q [rest E]]].
    assert (Hne : PyStr.split_from "/" EmptyString f <> []) by (rewrite E; discriminate).
    rewrite (app_removelast_last EmptyString Hne) in J at 1.
    rewrite concat_snoc in J; [symmetry; exact J |].
    rewrite E. cbn. discriminate.
  - rewrite (split_from_absent EmptyString f Hc). cbn. split; reflexivity.
Qed.

(** ** Where the model instance comes from *)

Lemma resolve_checkpoint_constructor (w : World) (o : Options) (fr : Frame) :
  exists tA,
    trace (snd (resolve_checkpoint w o fr)) = trace fr ++ tA
    /\ forallb is_resolve tA = true
    /\ forallb (constructor_allowed o) tA = true.
Proof.
  unfold resolve_checkpoint, ckpt_getitem_model, cfg_or_yaml. py_simpl.
  destruct (attempt_download w (weights o)); cbn;
    [eexists; split; [reflexivity | split; reflexivity] |].
  destruct (torch_load w (weights o)) as [e | ckpt]; cbn;
    [eexists; split; [norm_app; reflexivity | split; reflexivity] |].
  destruct (ckpt_model ckpt) as [[pm | raw] |]; cbn;
    destruct (str_truthy (cfg o)) eqn:Hc; cbn;
    try (destruct (Model_init w _); cbn);
    try (destruct (attempt_load w _); cbn);
    (eexists; split; [norm_app; reflexivity |]; split; [reflexivity |]);
    cbn; rewrite ?Hc, ?String.eqb_refl; reflexivity.
Qed.

Lemma in_forallb (P : event -> bool) (l : list event) (ev : event) :
  forallb P l = true -> In ev l -> P ev = true.
Proof. intros H Hin. rewrite forallb_forall in H. exact (H ev Hin). Qed.

Lemma load_model_constructor (w : World) (o : Options) (dev : string) :
  emits_only (constructor_allowed o) (load_model w o dev).
Proof.
  unfold load_model. apply emits_bind.
  - intros fr. destruct (resolve_checkpoint_constructor w o fr) as [tA [E [_ H]]].
    exists tA. split; assumption.
  - intros ms. unfold apply_recipe. emits.
Qed.

(** X4. [load_model] builds its model in one of two ways, chosen by
    [--cfg] alone: with a cfg, only [Model(opt.cfg)] is called, and never
    with the yaml embedded in the checkpoint (in [opt.cfg or
    ckpt['model'].yaml] the second operand is never reached); without a
    cfg, only [attempt_load(opt.weights)] is called. *)
Theorem model_constructor_choice (w : World) (o : Options) (dev : string) :
  (forall c, In (CallModel c) (run_trace (load_model w o dev)) ->
     c = CfgPath (cfg o) /\ str_truthy (cfg o) = true)
  /\ (forall p, In (CallAttemptLoad p) (run_trace (load_model w o dev)) ->
        p = weights o /\ str_truthy (cfg o) = false).
Proof.
  unfold run_trace.
  destruct (load_model_constructor w o dev start) as [t [E F]].
  rewrite E. cbn [trace start app]. split.
  - intros c Hin. pose proof (in_forallb _ _ _ F Hin) as H. cbn in H.
    destruct c as [p | y]; [| discriminate H].
    apply andb_true_iff in H. destruct H as [Hp Hc].
    apply String.eqb_eq in Hp. subst p. split; [reflexivity | exact Hc].
  - intros p Hin. pose proof (in_forallb _ _ _ F Hin) as H. cbn in H.
    apply andb_true_iff in H. destruct H as [Hp Hc].
    apply String.eqb_eq in Hp. subst p. split; [reflexivity |].
    apply negb_true_iff. exact Hc.
Qed.

Lemma model_constructor_choice_witness :
  CfgPath "models/yolov3.yaml" = CfgPath (cfg Sample.options_cfg)
  /\ str_truthy (cfg Sample.options_cfg) = true.
Proof.
  apply (proj1 (model_constructor_choice
                  (Sample.world_with (RawWeights Sample.all_but_anchors) PyNone
                     (inr (mkScriptModule "graph")) None)
                  Sample.options_cfg "cpu")).
  vm_compute. repeat (first [left; reflexivity | right]).
Defined.

(** ** Failures while the checkpoint is read *)

(** X5. [load_model] has no handler of its own: an exception of the
    download, or of [torch.load], or the [KeyError] of a checkpoint without
    a ['model'] entry, is the outcome of [load_model], and nothing is
    called after the statement that raised. *)
Theorem load_model_read_failures (w : World) (o : Options) (dev : string) :
  (forall e, attempt_download w (weights o) = Some e ->
     load_model w o dev start
     = (inl e, mkFrame [CallAttemptDownload (weights o)] None))
  /\ (forall e, attempt_download w (weights o) = None ->
        torch_load w (weights o) = inl e ->
        load_model w o dev start
        = (inl e, mkFrame [CallAttemptDownload (weights o);
                           CallTorchLoad (weights o)] None))
  /\ (forall ckpt, attempt_download w (weights o) = None ->
        torch_load w (weights o) = inr ckpt ->
        ckpt_model ckpt = None ->
        load_model w o dev start
        = (inl (KeyError "'model'"),
           mkFrame [CallAttemptDownload (weights o);
                    CallTorchLoad (weights o)] None)).
Proof.
  unfold load_model, resolve_checkpoint, ckpt_getitem_model. py_simpl.
  repeat split.
  - intros e ->. reflexivity.
  - intros e -> ->. reflexivity.
  - intros ckpt -> -> ->. reflexivity.
Qed.

Lemma load_model_read_failures_witness :
  load_model
    (set_attempt_download Sample.world
       (fun _ => Some (OtherError "HTTPError" "404 Not Found")))
    Sample.options "cpu" start
  = (inl (OtherError "HTTPError" "404 Not Found"),
     mkFrame [CallAttemptDownload "./yolov3.pt"] None).
Proof.
  apply (proj1 (load_model_read_failures
                  (set_attempt_download Sample.world
                     (fun _ => Some (OtherError "HTTPError" "404 Not Found")))
                  Sample.options "cpu")).
  reflexivity.
Defined.

(** ** The flags and the recipe *)

(** X6. Without a recipe (none given, or the empty string), [load_model]
    does not look at [--dynamic] and [--grid]: its outcome and its trace
    are the same for all values of the two flags. *)
Theorem load_model_ignores_flags_without_recipe (w : World) (o : Options)
    (dev : string) (dyn grd : bool) (fr : Frame) :
  opt_truthy (sparseml_recipe o) = false ->
  load_model w (set_flags o dyn grd) dev fr = load_model w o dev fr.
Proof.
  intros Hr.
  assert (Ha : forall m, apply_recipe w (set_flags o dyn grd) m = apply_recipe w o m).
  { intros m. unfold apply_recipe, set_flags. cbn [sparseml_recipe].
    unfold opt_truthy in Hr. destruct (sparseml_recipe o) as [r |]; [| reflexivity].
    rewrite Hr. reflexivity. }
  unfold load_model, bind.
  change (resolve_checkpoint w (set_flags o dyn grd)) with (resolve_checkpoint w o).
  destruct (resolve_checkpoint w o fr) as [[e | ms] fr1]; [reflexivity |].
  rewrite Ha. reflexivity.
Qed.

Lemma load_model_ignores_flags_without_recipe_witness :
  load_model Sample.world (set_flags Sample.options true true) "cpu" start
  = load_model Sample.world Sample.options "cpu" start.
Proof.
  apply load_model_ignores_flags_without_recipe. reflexivity.
Defined.

(** ** Precision of the loaded model *)

Lemma state_dict_of_eq (prefix : string) (m : Module) :
  state_dict_of prefix m
  = map (fun kv => ((prefix ++ fst kv)%string, snd kv)) (own_state m)
    ++ flat_map (fun nc => state_dict_of (prefix ++ fst nc ++ ".")%string (snd nc))
                (modules m).
Proof. destruct m; reflexivity. Qed.

Lemma filter_map_keys (f : string -> bool) (g : Tensor -> Tensor)
    (l : list (string * Tensor)) :
  filter (fun kv => f (fst kv)) (map (fun kv => (fst kv, g (snd kv))) l)
  = map (fun kv => (fst kv, g (snd kv))) (filter (fun kv => f (fst kv)) l).
Proof.
  induction l as [| [k t] l IH]; [reflexivity |]. cbn [map filter fst snd].
  destruct (f k); cbn [map fst snd]; rewrite IH; reflexivity.
Qed.

Lemma own_state_module_float (m : Module) :
  own_state (module_float m)
  = map (fun kv => (fst kv, tensor_float (snd kv))) (own_state m).
Proof.
  destruct m as [c s e st bf at' l]. unfold own_state, persistent.
  cbn [module_float parameters buffers non_persistent_buffers_set].
  rewrite (filter_map_keys (fun k => negb (existsb (String.eqb k) s))).
  rewrite map_app. reflexivity.
Qed.

Lemma state_dict_module_float (m : Module) :
  forall prefix,
    state_dict_of prefix (module_float m)
    = map (fun kv => (fst kv, tensor_float (snd kv))) (state_dict_of prefix m).
Proof.
  induction m as [c s e st bf at' l IH] using Module_induction. intros prefix.
  rewrite (state_dict_of_eq prefix (module_float _)), (state_dict_of_eq prefix (Mod _ _ _ _ _ _ _)).
  rewrite own_state_module_float. cbn [module_float modules].
  rewrite map_app, !map_map. f_equal.
  rewrite flat_map_concat_map, (flat_map_concat_map _ l), concat_map, !map_map.
  f_equal. apply map_ext_in. intros nc Hin. cbn [fst snd].
  rewrite Forall_forall in IH. apply (IH nc Hin).
Qed.

Lemma tensor_float_full (t : Tensor) : is_full_precision (tensor_float t) = true.
Proof. unfold tensor_float, is_full_precision. destruct (dtype t) eqn:E; cbn; rewrite ?E; reflexivity. Qed.

(** X7. A model returned by [load_model] has been through [model.float()]
    (line 54): every tensor of its state dict is of type float32, or of an
    integer type. *)
Theorem load_model_returns_full_precision (w : World) (o : Options)
    (dev : string) (fr : Frame) (m : Model) :
  fst (load_model w o dev fr) = inr m ->
  forallb (fun kv => is_full_precision (snd kv)) (state_dict m) = true.
Proof.
  unfold load_model, bind at 1.
  destruct (resolve_checkpoint w o fr) as [[e | ms] fr1]; [discriminate |].
  unfold bind at 1.
  destruct (apply_recipe w o (fst ms) fr1) as [[e | model'] fr2]; [discriminate |].
  py_simpl.
  destruct (load_state_dict model' (snd ms) true) as [e | loaded]; [discriminate |].
  cbn. intros H. inversion H; subst m. clear H.
  unfold state_dict, model_float. cbn [net].
  rewrite state_dict_module_float. rewrite forallb_forall.
  intros kv Hin. apply in_map_iff in Hin. destruct Hin as [kv0 [<- _]].
  cbn [snd]. apply tensor_float_full.
Qed.

Lemma load_model_returns_full_precision_witness :
  forallb (fun kv => is_full_precision (snd kv)) (state_dict Sample.model) = true.
Proof.
  apply (load_model_returns_full_precision Sample.world Sample.options "cpu" start).
  reflexivity.
Defined.

(** ** Reports of the export blocks *)

Ltac close_block :=
  eexists; eexists; split; [norm_app; reflexivity |]; split; [reflexivity |].

(** The ONNX block reports success exactly when the import, the export of
    its path, the reload and the check all returned. *)
Lemma onnx_block_success (w : World) (o : Options) (model : Model)
    (img : list Z) (y : PyVal) (fr : Frame) :
  exists tr' st,
    onnx_block w o model img y fr = (inr tt, mkFrame (trace fr ++ tr') (ts fr))
    /\ results tr' = [mkExportResult ONNX st]
    /\ forall f,
        st = Success f <->
        (f = onnx_filename (weights o)
         /\ import_onnx w = None
         /\ (if opt_truthy (sparseml_recipe o)
             then ModuleExporter w model (onnx_save_dir f) = None
                  /\ export_onnx w model img = None
             else onnx_export w model img f (onnx_export_args o y) = None)
         /\ exists om, onnx_load w f = inr om /\ check_model w om = None).
Proof.
  unfold onnx_block. py_simpl.
  destruct (import_onnx w) as [e |]; blk.
  { close_block. intros f. split; [discriminate |]. intros [_ [H _]]. discriminate H. }
  destruct (opt_truthy (sparseml_recipe o)); blk.
  - destruct (ModuleExporter w model _) eqn:E1; blk.
    { close_block. intros f. split; [discriminate |].
      intros [-> [_ [[H _] _]]]. unfold onnx_save_dir in H. rewrite E1 in H.
      discriminate H. }
    destruct (export_onnx w model img) eqn:E2; blk.
    { close_block. intros f. split; [discriminate |].
      intros [_ [_ [[_ H] _]]]. discriminate H. }
    destruct (skip_onnx_input_quantize w _ _); blk;
      (destruct (onnx_load w _) as [e' | om] eqn:E3; blk;
       [ close_block; intros f; split; [discriminate |];
         intros [-> [_ [_ [om [H _]]]]]; rewrite E3 in H; discriminate H
       | destruct (check_model w om) eqn:E4; blk;
         [ close_block; intros f; split; [discriminate |];
           intros [-> [_ [_ [om' [H H']]]]]; rewrite E3 in H; inversion H; subst om';
           rewrite E4 in H'; discriminate H'
         | close_block; intros f; split;
           [ intros H; inversion H; subst f; repeat split; auto;
             exists om; split; assumption
           | intros [-> _]; reflexivity ] ] ]).
  - destruct (onnx_export w model img _ _) eqn:E1; blk.
    { close_block. intros f. split; [discriminate |].
      intros [-> [_ [H _]]]. rewrite E1 in H. discriminate H. }
    destruct (onnx_load w _) as [e' | om] eqn:E3; blk.
    { close_block. intros f. split; [discriminate |].
      intros [-> [_ [_ [om [H _]]]]]. rewrite E3 in H. discriminate H. }
    destruct (check_model w om) eqn:E4; blk.
    { close_block. intros f. split; [discriminate |].
      intros [-> [_ [_ [om' [H H']]]]]. rewrite E3 in H. inversion H; subst om'.
      rewrite E4 in H'. discriminate H'. }
    close_block. intros f. split.
    + intros H. inversion H; subst f. repeat split; auto.
      exists om. split; assumption.
    + intros [-> _]. reflexivity.
Qed.

(** X8. The ONNX block prints its success line exactly when [import onnx],
    the export of the configured path ([torch.onnx.export], or
    [ModuleExporter] and [export_onnx] under a recipe), [onnx.load] of the
    file and [check_model] have all returned; the file named is the ONNX
    file name. Under a recipe the outcome of [skip_onnx_input_quantize]
    plays no part. *)
Theorem onnx_success_iff (w : World) (o : Options) (model : Model)
    (img : list Z) (y : PyVal) (f : string) :
  In (mkExportResult ONNX (Success f))
     (results (run_trace (onnx_block w o model img y)))
  <-> (f = onnx_filename (weights o)
       /\ import_onnx w = None
       /\ (if opt_truthy (sparseml_recipe o)
           then ModuleExporter w model (onnx_save_dir f) = None
                /\ export_onnx w model img = None
           else onnx_export w model img f (onnx_export_args o y) = None)
       /\ exists om, onnx_load w f = inr om /\ check_model w om = None).
Proof.
  unfold run_trace.
  destruct (onnx_block_success w o model img y start) as [tr' [st [E [R H]]]].
  rewrite E. cbn [snd trace start app]. rewrite R. rewrite <- (H f).
  split.
  - intros [X | []]. inversion X. reflexivity.
  - intros ->. left. reflexivity.
Qed.

Lemma onnx_success_iff_witness :
  In (mkExportResult ONNX (Success "./yolov3.onnx"))
     (results (run_trace (onnx_block Sample.world
                            (Sample.with_recipe Sample.options false false)
                            Sample.model [1; 3; 416; 416]%Z PyNone))).
Proof.
  apply (proj2 (onnx_success_iff Sample.world
                  (Sample.with_recipe Sample.options false false)
                  Sample.model [1; 3; 416; 416]%Z PyNone "./yolov3.onnx")).
  repeat split. exists "./yolov3.onnx". split; reflexivity.
Defined.

(** The ONNX block does the same from every state. *)
Lemma onnx_block_frame (w : World) (o : Options) (model : Model)
    (img : list Z) (y : PyVal) (fr : Frame) :
  onnx_block w o model img y fr
  = (inr tt,
     mkFrame (trace fr ++ run_trace (onnx_block w o model img y)) (ts fr)).
Proof.
  unfold run_trace, onnx_block. py_simpl.
  destruct (import_onnx w) as [e |]; blk; [norm_app; reflexivity |].
  destruct (negb (opt_truthy (sparseml_recipe o))); blk.
  - destruct (onnx_export w model img _ _); blk;
      [| destruct (onnx_load w _) as [e | om]; blk;
         [| destruct (check_model w om); blk ]];
      norm_app; reflexivity.
  - destruct (ModuleExporter w model _); blk;
      [| destruct (export_onnx w model img); blk;
         [| destruct (skip_onnx_input_quantize w _ _); blk;
            (destruct (onnx_load w _) as [e' | om]; blk;
             [| destruct (check_model w om); blk ]) ]];
      norm_app; reflexivity.
Qed.

(** The CoreML block, once [ts] is bound. *)
Lemma coreml_block_bound (w : World) (o : Options) (img : list Z) (fr : Frame)
    (t : ScriptModule) :
  ts fr = Some t ->
  exists tr' st,
    coreml_block w o img fr = (inr tt, mkFrame (trace fr ++ tr') (ts fr))
    /\ results tr' = [mkExportResult CoreML st]
    /\ forall f,
        st = Success f <->
        (f = coreml_filename (weights o)
         /\ import_coremltools w = None
         /\ ImageType w "image" img = None
         /\ exists ml, ct_convert w t = inr ml /\ ml_save w ml f = None).
Proof.
  intros Hts. unfold coreml_block. py_simpl. rewrite Hts.
  destruct (import_coremltools w) as [e |]; blk.
  { close_block. intros f. split; [discriminate |]. intros [_ [H _]]. discriminate H. }
  destruct (ImageType w _ _) eqn:E1; blk.
  { close_block. intros f. split; [discriminate |]. intros [_ [_ [H _]]].
    discriminate H. }
  destruct (ct_convert w t) as [e | ml] eqn:E2; blk.
  { close_block. intros f. split; [discriminate |].
    intros [_ [_ [_ [ml [H _]]]]]. discriminate H. }
  destruct (ml_save w ml _) eqn:E3; blk.
  { close_block. intros f. split; [discriminate |].
    intros [-> [_ [_ [ml' [H H']]]]]. inversion H; subst ml'.
    rewrite E3 in H'. discriminate H'. }
  close_block. intros f. split.
  - intros H. inversion H; subst f. repeat split; auto.
    exists ml. split; [reflexivity | exact E3].
  - intros [-> _]. reflexivity.
Qed.

(** X9. In a run of the three blocks, CoreML is reported as a success
    exactly when [torch.jit.trace] returned a module, [coremltools] was
    imported, and [ct.ImageType], [ct.convert] on that module and the save
    of the result all returned. Neither the outcome of [ts.save] nor that of
    the ONNX block plays a part. *)
Theorem coreml_success_iff (w : World) (o : Options) (model : Model)
    (img : list Z) (y : PyVal) (f : string) :
  In (mkExportResult CoreML (Success f))
     (results (run_trace (export_backends w o model img y)))
  <-> (f = coreml_filename (weights o)
       /\ import_coremltools w = None
       /\ ImageType w "image" img = None
       /\ exists t ml,
           jit_trace w model img = inr t
           /\ ct_convert w t = inr ml /\ ml_save w ml f = None).
Proof.
  unfold run_trace, export_backends, bind.
  rewrite torchscript_block_eq. cbv zeta.
  destruct (jit_trace w model img) as [e | t] eqn:Ej.
  - rewrite onnx_block_frame. cbn [trace ts start app].
    rewrite coreml_block_unbound by reflexivity.
    destruct (onnx_block_spec w o model img y start) as [tr2 [s2 [E2 [R2 _]]]].
    unfold run_trace. rewrite E2. cbn [snd trace start app].
    split.
    + intros H. exfalso.
      destruct (import_coremltools w); cbn [snd trace app results] in H;
        rewrite ?results_app, ?R2 in H; cbn in H;
        repeat (destruct H as [H | H]; [discriminate H |]); exact H.
    + intros [_ [_ [_ [t [ml [H _]]]]]]. discriminate H.
  - assert (Hcase : exists s1 ts1 tr1,
              (match ts_save w t (torchscript_filename (weights o)) with
               | Some e =>
                   (@inr exn unit tt,
                    mkFrame (trace start ++
                             [Print (MsgStarting TorchScript (torch_version w));
                              CallJitTrace false;
                              CallTsSave (torchscript_filename (weights o));
                              Print (MsgFailure TorchScript e)]) (Some t))
               | None =>
                   (inr tt,
                    mkFrame (trace start ++
                             [Print (MsgStarting TorchScript (torch_version w));
                              CallJitTrace false;
                              CallTsSave (torchscript_filename (weights o));
                              Print (MsgSuccess TorchScript
                                       (torchscript_filename (weights o)))])
                            (Some t))
               end) = (inr tt, mkFrame tr1 ts1)
              /\ ts1 = Some t /\ results tr1 = [mkExportResult TorchScript s1]).
    { destruct (ts_save w t _); eexists; eexists; eexists;
        (split; [reflexivity | split; reflexivity]). }
    destruct Hcase as [s1 [ts1 [tr1 [E1 [-> R1]]]]]. rewrite E1.
    rewrite onnx_block_frame. cbn [trace ts].
    destruct (onnx_block_spec w o model img y start) as [tr2 [s2 [E2 [R2 _]]]].
    unfold run_trace. rewrite E2. cbn [snd trace start app].
    destruct (coreml_block_bound w o img
                (mkFrame (tr1 ++ ImportOnnx :: tr2) (Some t)) t eq_refl)
      as [tr3 [s3 [E3 [R3 H3]]]].
    rewrite E3. cbn [snd trace].
    rewrite (results_app (tr1 ++ ImportOnnx :: tr2) tr3), (results_app tr1).
    cbn [results]. rewrite R1, R2, R3. cbn [app].
    split.
    + intros H. repeat (destruct H as [H | H]; [try discriminate H |]);
        [| destruct H].
      inversion H as [Hs]. apply H3 in Hs.
      destruct Hs as [Hf [Hi [Him [ml [Hc Hsv]]]]].
      repeat split; auto. exists t, ml. repeat split; auto.
    + intros [Hf [Hi [Him [t' [ml [Ht [Hc Hsv]]]]]]].
      inversion Ht; subst t'.
      assert (Hs : s3 = Success f).
      { apply H3. repeat split; auto. exists ml. split; assumption. }
      rewrite Hs. do 2 right. left. reflexivity.
Qed.

Lemma coreml_success_iff_witness :
  In (mkExportResult CoreML (Success "./yolov3.mlmodel"))
     (results
        (run_trace
           (export_backends
              (Sample.world_with (PackagedModel Sample.model) PyNone
                 (inr (mkScriptModule "graph"))
                 (Some (OtherError "OSError" "disk full")))
              Sample.options Sample.model [1; 3; 416; 416]%Z PyNone))).
Proof.
  apply (proj2 (coreml_success_iff
                  (Sample.world_with (PackagedModel Sample.model) PyNone
                     (inr (mkScriptModule "graph"))
                     (Some (OtherError "OSError" "disk full")))
                  Sample.options Sample.model [1; 3; 416; 416]%Z PyNone
                  "./yolov3.mlmodel")).
  repeat split. exists (mkScriptModule "graph"), "mlmodel". repeat split.
Defined.

(** X10. The first two reports of a run of the three blocks are the
    reports the TorchScript block and the ONNX block give when run alone:
    what the ONNX block reports does not depend on the TorchScript block. *)
Theorem onnx_report_is_independent (w : World) (o : Options) (model : Model)
    (img : list Z) (y : PyVal) :
  exists coreml_status,
    results (run_trace (export_backends w o model img y))
    = results (run_trace (torchscript_block w o model img))
      ++ results (run_trace (onnx_block w o model img y))
      ++ [mkExportResult CoreML coreml_status].
Proof.
  unfold run_trace at 1. unfold export_backends, bind.
  destruct (torchscript_block w o model img start) as [r1 fr1] eqn:E1.
  assert (Hr1 : r1 = inr tt /\ exists t1, trace fr1 = trace start ++ t1).
  { destruct (torchscript_block_spec w o model img start)
      as [tr' [st [ts' [E R]]]]. rewrite E in E1. inversion E1; subst.
    split; [reflexivity |]. eexists; reflexivity. }
  destruct Hr1 as [-> [t1 Ht1]].
  rewrite onnx_block_frame.
  destruct (coreml_block_spec w o img
              (mkFrame (trace fr1 ++ run_trace (onnx_block w o model img y)) (ts fr1)))
    as [tr3 [s3 [E3 R3]]].
  rewrite E3. cbn [snd trace]. exists s3.
  rewrite (results_app _ (ImportCoremltools :: tr3)), (results_app (trace fr1)).
  cbn [results]. rewrite R3.
  unfold run_trace at 2. rewrite E1. cbn [snd].
  rewrite <- app_assoc. reflexivity.
Qed.

(** X11. The two ONNX paths exclude each other: with a recipe the block
    never calls [torch.onnx.export], and without one it never calls
    [ModuleExporter], [export_onnx] or [skip_onnx_input_quantize]. When
    [ModuleExporter] is called, it is with the directory part of the ONNX
    file name. *)
Theorem onnx_paths_exclusive (w : World) (o : Options) (model : Model)
    (img : list Z) (y : PyVal) :
  forallb (fun ev =>
             (if opt_truthy (sparseml_recipe o)
              then negb (is_standard_export ev)
              else negb (is_qat_export ev))
             && match ev with
                | CallModuleExporter d =>
                    String.eqb d (onnx_save_dir (onnx_filename (weights o)))
                | _ => true
                end)
          (run_trace (onnx_block w o model img y)) = true.
Proof.
  unfold run_trace, onnx_block, onnx_save_dir. py_simpl.
  destruct (opt_truthy (sparseml_recipe o));
    (destruct (import_onnx w) as [e |]; blk; [reflexivity |]).
  - destruct (ModuleExporter w model _); blk;
      [| destruct (export_onnx w model img); blk;
         [| destruct (skip_onnx_input_quantize w _ _); blk;
            (destruct (onnx_load w _) as [e' | om]; blk;
             [| destruct (check_model w om); blk ]) ]];
      cbn [forallb is_standard_export is_qat_export negb andb];
      rewrite ?String.eqb_refl; reflexivity.
  - destruct (onnx_export w model img _ _); blk;
      [| destruct (onnx_load w _) as [e | om]; blk;
         [| destruct (check_model w om); blk ]];
      reflexivity.
Qed.

(** ** The script as a whole *)

Lemma emits_for_each {A B : Type} (P : event -> bool) (f : A -> Py B) (l : list A) :
  (forall x, emits_only P (f x)) -> emits_only P (for_each f l).
Proof.
  intros H. induction l as [| x l IH]; cbn [for_each].
  - apply emits_ret.
  - apply emits_bind; [apply H | intros y].
    apply emits_bind; [exact IH | intros ys]. apply emits_ret.
Qed.

Lemma emits_weaken {A : Type} (P Q : event -> bool) (c : Py A) :
  (forall ev, P ev = true -> Q ev = true) -> emits_only P c -> emits_only Q c.
Proof.
  intros H Hc fr. destruct (Hc fr) as [t [E F]]. exists t. split; [exact E |].
  revert F. apply forallb_weaken. exact H.
Qed.

Lemma fatal_or_complete_bind {A : Type} (c : Py A) (k : A -> Py unit) :
  emits_only (fun ev => negb (is_export_event ev)) c ->
  (forall a, fatal_or_complete (k a)) ->
  fatal_or_complete (bind c k).
Proof.
  intros Hc Hk fr. unfold bind.
  destruct (Hc fr) as [t1 [E1 F1]].
  destruct (c fr) as [[e | a] fr1]; cbn [snd] in E1.
  - exists t1. split; [exact F1 |]. left. exists e. split; [reflexivity | exact E1].
  - destruct (Hk a fr1)
      as [pre [F [[e [Ho Ht]] | [tb [s1 [s2 [s3 [Ho [Hf [Ht R]]]]]]]]]].
    + exists (t1 ++ pre). split; [rewrite forallb_app, F1, F; reflexivity |].
      left. exists e. split; [exact Ho |]. rewrite Ht, E1, app_assoc. reflexivity.
    + exists (t1 ++ pre). split; [rewrite forallb_app, F1, F; reflexivity |].
      right. exists tb, s1, s2, s3. split; [exact Ho |].
      split; [apply in_or_app; right; exact Hf |]. split; [| exact R].
      rewrite Ht, E1. repeat rewrite <- app_assoc. reflexivity.
Qed.

(** The dry run, the three blocks and the closing line. *)
Lemma export_stage_complete (w : World) (o : Options) (model : Model)
    (img : list Z) :
  fatal_or_complete
    (y <- call CallForward (forward w model img) ;;
     export_backends w o model img y ;;; print MsgComplete).
Proof.
  intros fr. exists [CallForward]. split; [reflexivity |].
  destruct (forward w model img) as [e | y].
  { left. exists e. split; reflexivity. }
  right.
  destruct (torchscript_block_spec w o model img
              (mkFrame (trace fr ++ [CallForward]) (ts fr)))
    as [tr1 [s1 [ts1 [E1 R1]]]].
  cbn [trace ts] in E1.
  destruct (onnx_block_spec w o model img y
              (mkFrame ((trace fr ++ [CallForward])
                        ++ Print (MsgStarting TorchScript (torch_version w)) :: tr1)
                       ts1))
    as [tr2 [s2 [E2 [R2 _]]]].
  cbn [trace ts] in E2.
  destruct (coreml_block_spec w o img
              (mkFrame (((trace fr ++ [CallForward])
                         ++ Print (MsgStarting TorchScript (torch_version w)) :: tr1)
                        ++ ImportOnnx :: tr2) ts1))
    as [tr3 [s3 [E3 R3]]].
  cbn [trace ts] in E3.
  exists ((Print (MsgStarting TorchScript (torch_version w)) :: tr1)
          ++ (ImportOnnx :: tr2) ++ (ImportCoremltools :: tr3)), s1, s2, s3.
  unfold call, export_backends, print, bind, emit, lift, ret.
  cbn [fst snd trace ts]. rewrite E1, E2, E3. cbn [fst snd trace ts].
  split; [reflexivity |]. split; [left; reflexivity |].
  split; [repeat (progress norm_app); reflexivity |].
  rewrite (results_app (_ :: tr1)), (results_app (_ :: tr2)).
  cbn [results]. rewrite R1, R2, R3. reflexivity.
Qed.

Lemma main_fatal_or_complete (w : World) (o : Options) :
  fatal_or_complete (main w o).
Proof.
  unfold main. cbv zeta.
  apply fatal_or_complete_bind; [apply emits_emit; reflexivity | intros _].
  apply fatal_or_complete_bind; [apply emits_emit; reflexivity | intros _].
  apply fatal_or_complete_bind; [apply emits_call; reflexivity | intros dev].
  apply fatal_or_complete_bind.
  { eapply emits_weaken; [| apply load_model_emits].
    intros []; cbn; congruence. }
  intros model.
  apply fatal_or_complete_bind.
  { unfold max_stride. destruct (stride model); [apply emits_raise | apply emits_ret]. }
  intros gs.
  apply fatal_or_complete_bind.
  { apply emits_for_each. intros x. apply emits_call. reflexivity. }
  intros sizes.
  apply fatal_or_complete_bind; [apply emits_call; reflexivity | intros img].
  apply fatal_or_complete_bind; [apply emits_run_fuel | intros model'].
  apply export_stage_complete.
Qed.

(** X12. Everything before the export blocks is fatal, and nothing in them
    is. A run of the script either raises, and then no statement of an
    export block has run and nothing has been reported; or it returns, and
    then the dry run has been made before the first export block, each of
    TorchScript, ONNX and CoreML has reported once, in that order, and the
    closing line is the last thing printed. *)
Theorem main_raises_before_exports_or_completes (w : World) (o : Options) :
  match run_outcome (main w o) with
  | inl _ =>
      forallb (fun ev => negb (is_export_event ev)) (run_trace (main w o)) = true
      /\ results (run_trace (main w o)) = []
  | inr _ =>
      exists pre tb s1 s2 s3,
        run_trace (main w o) = pre ++ tb ++ [Print MsgComplete]
        /\ forallb (fun ev => negb (is_export_event ev)) pre = true
        /\ In CallForward pre
        /\ results tb = [mkExportResult TorchScript s1; mkExportResult ONNX s2;
                         mkExportResult CoreML s3]
        /\ results (run_trace (main w o)) = results tb
  end.
Proof.
  assert (Hq : forall l, forallb (fun ev => negb (is_export_event ev)) l = true ->
                 results l = []).
  { induction l as [| ev l IH]; [reflexivity |]. cbn [forallb].
    intros H. apply andb_true_iff in H. destruct H as [Hev Hl].
    destruct ev as [m | | | | | | | | | | | | | | | | | | | | | | | | | | ];
      cbn [results]; try exact (IH Hl).
    destruct m; try discriminate Hev; exact (IH Hl). }
  unfold run_outcome, run_trace.
  destruct (main_fatal_or_complete w o start)
    as [pre [F [[e [Ho Ht]] | [tb [s1 [s2 [s3 [Ho [Hf [Ht R]]]]]]]]]]; rewrite Ho.
  - rewrite Ht. cbn [trace start app]. split; [exact F | exact (Hq pre F)].
  - exists pre, tb, s1, s2, s3. rewrite Ht. cbn [trace start app].
    split; [reflexivity |]. split; [exact F |]. split; [exact Hf |].
    split; [exact R |].
    rewrite (results_app pre), (results_app tb), (Hq pre F).
    cbn [results app]. rewrite app_nil_r. reflexivity.
Qed.

Section Hoare.

Context {E : event -> Prop}.

Lemma hoare_bind {A B : Type} (Q : A -> Prop) (Q' : B -> Prop) (c : Py A)
    (k : A -> Py B) :
  hoare E Q c -> (forall a, Q a -> hoare E Q' (k a)) -> hoare E Q' (bind c k).
Proof.
  intros Hc Hk fr. unfold bind.
  destruct (Hc fr) as [t1 [E1 [F1 Hq]]].
  destruct (c fr) as [[e | a] fr1]; cbn [fst snd] in *.
  - exists t1. split; [exact E1 |]. split; [exact F1 | discriminate].
  - destruct (Hk a (Hq a eq_refl) fr1) as [t2 [E2 [F2 Hq']]].
    exists (t1 ++ t2). rewrite E2, E1, app_assoc. split; [reflexivity |].
    split; [apply Forall_app; split; assumption | exact Hq'].
Qed.

Lemma hoare_call {A : Type} (Q : A -> Prop) (ev : event) (r : exn + A) :
  E ev -> (forall a, r = inr a -> Q a) -> hoare E Q (call ev r).
Proof.
  intros He Hq fr. exists [ev]. unfold call, bind, emit, lift, raise, ret.
  destruct r as [e | a]; cbn [fst snd trace].
  - split; [reflexivity |]. split; [constructor; [exact He | constructor] |].
    discriminate.
  - split; [reflexivity |]. split; [constructor; [exact He | constructor] |].
    intros a' H. inversion H; subst a'. apply Hq. reflexivity.
Qed.

Lemma hoare_emits {A : Type} (P : event -> bool) (c : Py A) :
  (forall ev, P ev = true -> E ev) -> emits_only P c ->
  hoare E (fun _ => True) c.
Proof.
  intros H Hc fr. destruct (Hc fr) as [t [Et F]]. exists t.
  split; [exact Et |]. split; [| trivial].
  rewrite forallb_forall in F. apply Forall_forall. intros ev Hin.
  apply H, F, Hin.
Qed.

End Hoare.

(** Line 81: when the comprehension returns, its value is the list of the
    values that [check_img_size] returned. *)
Lemma hoare_checks (E : event -> Prop) (w : World) (gs : Z) (l : list Z) :
  (forall x, E (CallCheckImgSize x gs)) ->
  hoare E (fun sizes => Forall2 (fun x s => check_img_size w x gs = inr s) l sizes)
        (for_each (fun x => call (CallCheckImgSize x gs) (check_img_size w x gs)) l).
Proof.
  intros He. induction l as [| x l IH]; cbn [for_each].
  - intros fr. exists []. cbn. rewrite app_nil_r. split; [reflexivity |].
    split; [constructor |]. intros a H. inversion H. constructor.
  - apply (hoare_bind (fun s => check_img_size w x gs = inr s)).
    { apply hoare_call; [apply He | intros a H; exact H]. }
    intros s Hs.
    apply (hoare_bind (fun sizes =>
             Forall2 (fun x s => check_img_size w x gs = inr s) l sizes) _ _ _ IH).
    intros sizes Hsizes fr. exists []. cbn. rewrite app_nil_r.
    split; [reflexivity |]. split; [constructor |].
    intros a H. inversion H. constructor; assumption.
Qed.

(** X13. The sample image is built from the validated sizes: whenever
    [torch.zeros] is called, its shape is the batch size, 3, and then the
    values that [check_img_size] returned for the elements of the expanded
    [--img-size], in order, all checked against the same stride. *)
Theorem torch_zeros_shape (w : World) (o : Options) (shape : list Z) :
  In (CallTorchZeros shape) (run_trace (main w o)) ->
  exists gs sizes,
    shape = batch_size o :: 3%Z :: sizes
    /\ Forall2 (fun x s => check_img_size w x gs = inr s)
               (expand (img_size o)) sizes.
Proof.
  set (R := fun shape : list Z =>
              exists gs sizes,
                shape = batch_size o :: 3%Z :: sizes
                /\ Forall2 (fun x s => check_img_size w x gs = inr s)
                           (expand (img_size o)) sizes).
  set (E := fun ev => forall s, ev = CallTorchZeros s -> R s).
  assert (Hq : forall ev, negb (is_zeros ev) = true -> E ev).
  { intros ev Hev s ->. discriminate Hev. }
  assert (H : hoare E (fun _ : unit => True) (main w o)).
  { unfold main. cbv zeta.
    apply (hoare_bind (fun _ => True));
      [apply (hoare_emits _ _ Hq), emits_emit; reflexivity | intros _ _].
    apply (hoare_bind (fun _ => True));
      [apply (hoare_emits _ _ Hq), emits_emit; reflexivity | intros _ _].
    apply (hoare_bind (fun _ => True));
      [apply (hoare_emits _ _ Hq), emits_call; reflexivity | intros dev _].
    apply (hoare_bind (fun _ => True)).
    { apply (hoare_emits _ _ Hq).
      eapply emits_weaken; [| apply load_model_emits].
      intros []; cbn; congruence. }
    intros model _.
    apply (hoare_bind (fun _ => True)).
    { apply (hoare_emits _ _ Hq). unfold max_stride.
      destruct (stride model); [apply emits_raise | apply emits_ret]. }
    intros gs _.
    apply (hoare_bind (fun sizes =>
             Forall2 (fun x s => check_img_size w x gs = inr s)
                     (expand (img_size o)) sizes)).
    { apply hoare_checks. intros x s Hx. discriminate Hx. }
    intros sizes Hsizes.
    apply (hoare_bind (fun _ => True)).
    { apply hoare_call; [| trivial]. intros s Hs. inversion Hs; subst s.
      exists gs, sizes. split; [reflexivity | exact Hsizes]. }
    intros img _.
    apply (hoare_emits _ _ Hq).
    apply emits_bind; [apply emits_run_fuel | intros m].
    apply emits_bind; [apply emits_call; reflexivity | intros y].
    apply emits_bind; [| intros; apply emits_emit; reflexivity].
    eapply emits_weaken; [| apply export_backends_emits].
    intros []; cbn; congruence. }
  unfold run_trace. destruct (H start) as [t [Et [Ft _]]].
  rewrite Et. cbn [trace start app]. intros Hin.
  rewrite Forall_forall in Ft. exact (Ft _ Hin shape eq_refl).
Qed.

Lemma torch_zeros_shape_witness :
  exists gs sizes,
    [1; 3; 416; 416]%Z = batch_size Sample.options :: 3%Z :: sizes
    /\ Forall2 (fun x s => check_img_size Sample.world x gs = inr s)
               (expand (img_size Sample.options)) sizes.
Proof.
  apply (torch_zeros_shape Sample.world Sample.options).
  vm_compute. repeat (first [left; reflexivity | right]).
Defined.

(** ** Termination of the export-mode update *)

Lemma in_update {A : Type} (k : string) (v : A) (l : list (string * A))
    (nc : string * A) :
  In nc (update k v l) -> In nc l \/ snd nc = v.
Proof.
  induction l as [| [k' v'] l IH]; [intros [] |]. cbn [update].
  destruct (String.eqb k k').
  - intros [<- | H]; [right; reflexivity | left; right; exact H].
  - intros [<- | H]; [left; left; reflexivity |].
    destruct (IH H) as [H' | H']; [left; right; exact H' | right; exact H'].
Qed.

(** What lines 89-93 do to a module: nothing, or the replacement of its
    [act] by a new module that is not a [Conv]. *)
Lemma assign_activation_cases (m0 m1 : Module) :
  assign_activation m0 = inr m1 ->
  modules m1 = modules m0
  \/ exists a c,
      lookup "act" (modules m0) = Some a
      /\ ModClass_eqb c ClsConv = false
      /\ modules m1 = update "act" (fresh_module c) (modules m0).
Proof.
  unfold assign_activation.
  destruct (isinstance m0 ClsConv);
    [| intros H; inversion H; left; reflexivity].
  destruct (getattr m0 "act") as [e | [x | t | a]] eqn:Hg;
    [discriminate | intros H; inversion H; left; reflexivity
     | intros H; inversion H; left; reflexivity |].
  apply getattr_module in Hg. destruct Hg as [_ [_ [_ Ha]]].
  destruct (isinstance a ClsNNHardswish);
    [| destruct (isinstance a ClsNNSiLU)];
    intros H; inversion H; subst m1; clear H.
  - right. exists a, ClsHardswish. repeat split. exact Ha.
  - right. exists a, ClsSiLU. repeat split. exact Ha.
  - left. reflexivity.
Qed.

Lemma visit_children_total (visit : Module -> option (exn + Module))
    (l : list (string * Module)) :
  (forall nc, In nc l -> visit (snd nc) <> None) ->
  visit_children visit l <> None.
Proof.
  induction l as [| [n c] l IH]; intros H; [discriminate |].
  cbn [visit_children].
  pose proof (H (n, c) (or_introl eq_refl)) as Hc. cbn [snd] in Hc.
  destruct (visit c) as [[e | c'] |]; [discriminate | | contradiction Hc; reflexivity].
  assert (Hl : visit_children visit l <> None)
    by (apply IH; intros nc Hin; apply H; right; exact Hin).
  destruct (visit_children visit l) as [[e | l'] |];
    [discriminate | discriminate | contradiction Hl; reflexivity].
Qed.

(** The traversal never runs out of fuel when given the depth of the tree:
    the loop of lines 87-93 terminates on every module tree, by returning
    or by raising. *)
Lemma named_modules_loop_total (fuel : nat) (m : Module) :
  height m <= fuel -> named_modules_loop fuel m <> None.
Proof.
  revert m. induction fuel as [| fuel IH]; intros m Hh.
  { pose proof (height_pos m). lia. }
  cbn [named_modules_loop]. unfold clear_non_persistent.
  destruct (setattr_refused m "_non_persistent_buffers_set" "set"); [discriminate |].
  destruct (assign_activation (set_non_persistent m [])) as [e | m1] eqn:Ea;
    [discriminate |].
  assert (Hv : visit_children (named_modules_loop fuel) (modules m1) <> None).
  { apply visit_children_total. intros nc Hin. apply IH.
    destruct (assign_activation_cases _ _ Ea) as [Hm | [a [c [Ha [Hc Hm]]]]];
      rewrite Hm in Hin; cbn [set_non_persistent modules] in *.
    - pose proof (height_child m nc Hin) as H3. lia.
    - pose proof (height_child m ("act", a) (lookup_in _ _ _ Ha)) as H1.
      pose proof (height_pos a) as H2. cbn [snd] in H1.
      destruct (in_update _ _ _ _ Hin) as [H | H].
      + pose proof (height_child m nc H) as H3. lia.
      + rewrite H. cbn. lia. }
  destruct (visit_children (named_modules_loop fuel) (modules m1)) as [[e | l'] |];
    [discriminate | discriminate | contradiction Hv; reflexivity].
Qed.

Lemma update_module_tree_total (grid : bool) (root : Module) :
  update_module_tree grid root <> None.
Proof.
  unfold update_module_tree.
  pose proof (named_modules_loop_total (height root) root (le_n _)) as Ht.
  destruct (named_modules_loop (height root) root) as [[e | root1] |];
    [discriminate | discriminate | contradiction Ht; reflexivity].
Qed.

(** ** Running the update twice *)

Lemma is_nn_export_friendly (c : Module) :
  is_nn_activation c = true -> is_nn_activation (export_friendly c) = false.
Proof.
  intros H. destruct (export_friendly_fresh c H) as [-> | ->]; reflexivity.
Qed.

Lemma walk_fresh (c : Module) :
  is_nn_activation c = true -> walk (export_friendly c) = export_friendly c.
Proof.
  intros H. destruct (export_friendly_fresh c H) as [-> | ->]; reflexivity.
Qed.

Lemma isinstance_walk (m : Module) (c : ModClass) :
  isinstance (walk m) c = isinstance m c.
Proof. destruct m; reflexivity. Qed.

Lemma is_nn_walk (m : Module) : is_nn_activation (walk m) = is_nn_activation m.
Proof. unfold is_nn_activation. rewrite !isinstance_walk. reflexivity. Qed.

(** The traversal changes nothing in a tree it has been through. *)
Lemma walk_idempotent (m : Module) : walk (walk m) = walk m.
Proof.
  induction m as [c s e st bf at' l IH] using Module_induction.
  cbn [walk cls export parameters buffers attrs modules]. f_equal.
  rewrite map_map. apply map_ext_in. intros nc Hin. cbn [fst snd].
  rewrite Forall_forall in IH. specialize (IH nc Hin).
  unfold isinstance at 1. cbn [cls].
  change (ModClass_eqb c ClsConv) with (isinstance (Mod c s e st bf at' l) ClsConv).
  destruct (isinstance (Mod c s e st bf at' l) ClsConv && ("act" =? fst nc)%string)
    eqn:Hc; cbn [andb].
  - destruct (is_nn_activation (snd nc)) eqn:Hn.
    + rewrite (is_nn_export_friendly _ Hn), (walk_fresh _ Hn). reflexivity.
    + rewrite is_nn_walk, Hn, IH. reflexivity.
  - rewrite IH. reflexivity.
Qed.

Lemma walk_set_export (m : Module) (b : bool) :
  walk (set_export m b) = set_export (walk m) b.
Proof. destruct m; reflexivity. Qed.

Lemma set_export_twice (m : Module) (b : bool) :
  set_export (set_export m b) b = set_export m b.
Proof. destruct m; reflexivity. Qed.

Lemma map_update {A B : Type} (g : string -> A -> B) (k : string) (v : A)
    (l : list (string * A)) :
  map (fun nc => (fst nc, g (fst nc) (snd nc))) (update k v l)
  = update k (g k v) (map (fun nc => (fst nc, g (fst nc) (snd nc))) l).
Proof.
  induction l as [| [k' v'] l IH]; [reflexivity |]. cbn [update map fst snd].
  destruct (String.eqb_spec k k') as [-> | Hne]; cbn [map fst snd];
    [reflexivity | rewrite IH; reflexivity].
Qed.

Lemma update_twice {A : Type} (k : string) (v : A) (l : list (string * A)) :
  update k v (update k v l) = update k v l.
Proof.
  induction l as [| [k' v'] l IH]; [reflexivity |]. cbn [update].
  destruct (String.eqb k k') eqn:E; cbn [update]; rewrite E;
    [reflexivity | rewrite IH; reflexivity].
Qed.

Lemma length_update {A : Type} (k : string) (v : A) (l : list (string * A)) :
  length (update k v l) = length l.
Proof.
  induction l as [| [k' v'] l IH]; [reflexivity |]. cbn [update].
  destruct (String.eqb k k'); cbn [length]; [| rewrite IH]; reflexivity.
Qed.

Lemma well_formed_set_export (m : Module) (b : bool) :
  well_formed (set_export m b) = well_formed m.
Proof. destruct m; reflexivity. Qed.

Lemma well_formed_fresh (c : Module) :
  is_nn_activation c = true -> well_formed (export_friendly c) = true.
Proof.
  intros H. destruct (export_friendly_fresh c H) as [-> | ->]; reflexivity.
Qed.

Lemma getattr_walk_module (m c : Module) (name : string) :
  getattr m name = inr (AttrModule c) ->
  exists c', getattr (walk m) name = inr (AttrModule c').
Proof.
  intros Hg. apply getattr_module in Hg. destruct Hg as [Ha [Hp [Hb Hm]]].
  destruct m as [c0 s e st bf at' l]. cbn [attrs parameters buffers modules] in *.
  eexists. apply getattr_module. cbn [walk attrs parameters buffers modules].
  repeat (split; [assumption |]).
  apply (lookup_map
           (fun nc => if isinstance _ ClsConv && String.eqb "act" (fst nc)
                         && is_nn_activation (snd nc)
                      then export_friendly (snd nc) else walk (snd nc))
           name c l Hm).
Qed.

(** The traversal keeps a tree well formed. *)
Lemma well_formed_walk (m : Module) :
  well_formed m = true -> well_formed (walk m) = true.
Proof.
  induction m as [c s e st bf at' l IH] using Module_induction. intros Hwf.
  destruct (well_formed_parts _ Hwf) as [Hnd [Hact [Hleaf [Hasg Hch]]]].
  apply well_formed_intro.
  - cbn [walk modules] in *. rewrite keys_map. exact Hnd.
  - rewrite isinstance_walk. intros Hc.
    destruct (act_is_module_lookup _ (Hact Hc)) as [a [Hg _]].
    destruct (getattr_walk_module _ a "act" Hg) as [a' Hg'].
    unfold act_is_module. rewrite Hg'. reflexivity.
  - rewrite is_nn_walk. intros Hn. specialize (Hleaf Hn).
    unfold is_leaf in *. cbn [walk parameters buffers modules] in *.
    destruct st; [| discriminate]. destruct bf; [| discriminate].
    destruct l; [reflexivity | discriminate].
  - unfold assignable in *. rewrite !setattr_refused_walk. exact Hasg.
  - cbn [walk modules] in *.
    rewrite forallb_forall. intros nc' Hin'. apply in_map_iff in Hin'.
    destruct Hin' as [nc [<- Hin]]. cbn [snd fst].
    rewrite forallb_forall in Hch. rewrite Forall_forall in IH.
    destruct (isinstance _ ClsConv && ("act" =? fst nc)%string
              && is_nn_activation (snd nc)) eqn:Hc.
    + apply andb_true_iff in Hc. destruct Hc as [_ Hn].
      exact (well_formed_fresh _ Hn).
    + exact (IH nc Hin (Hch nc Hin)).
Qed.

Lemma map_fixed_in {A : Type} (f : A -> A) (l : list A) (x : A) :
  map f l = l -> In x l -> f x = x.
Proof.
  induction l as [| a l IH]; [intros _ [] |]. cbn [map].
  intros H. injection H as Ha Hl. intros [Hx | Hin].
  - subst x. exact Ha.
  - exact (IH Hl Hin).
Qed.

(** In a tree that has been through the traversal, so has every submodule
    that the traversal does not replace. *)
Lemma walk_fixed_child (m c : Module) (k : string) :
  walk m = m ->
  lookup k (modules m) = Some c ->
  isinstance m ClsConv && String.eqb "act" k = false ->
  walk c = c.
Proof.
  intros Hw Hl Hc. pose proof (lookup_in _ _ _ Hl) as Hin.
  destruct m as [c0 s e st bf at' l]. cbn [modules] in *.
  cbn [walk cls export parameters buffers attrs modules] in Hw.
  injection Hw as _ Hmap.
  pose proof (map_fixed_in _ _ _ Hmap Hin) as Hf. cbn [fst snd] in Hf.
  rewrite Hc in Hf. cbn [andb] in Hf. injection Hf as Hx. exact Hx.
Qed.

(** Replacing a submodule by one that has been through the traversal, in a
    module that has been through it and is not a [Conv]. *)
Lemma walk_update_child (m v : Module) (k : string) :
  walk m = m -> walk v = v -> isinstance m ClsConv = false ->
  walk (set_modules m (update k v (modules m)))
  = set_modules m (update k v (modules m)).
Proof.
  intros Hw Hv Hc. destruct m as [c0 s e st bf at' l].
  unfold set_modules. cbn [cls non_persistent_buffers_set export parameters buffers attrs modules].
  cbn [walk cls export parameters buffers attrs modules] in Hw |- *.
  unfold isinstance in Hc, Hw |- *. cbn [cls] in Hc, Hw |- *. rewrite Hc in Hw |- *.
  cbn [andb] in Hw |- *. injection Hw as Hs Hmap. subst s. f_equal.
  rewrite (map_update (fun _ c => walk c)). rewrite Hmap, Hv. reflexivity.
Qed.

(** Replacing a submodule by a well-formed one, in a well-formed module
    that is neither a [Conv] nor an activation. *)
Lemma well_formed_update_child (m v : Module) (k : string) :
  well_formed m = true -> well_formed v = true ->
  (isinstance m ClsConv = true -> k <> "act") ->
  well_formed (set_modules m (update k v (modules m))) = true.
Proof.
  intros Hwf Hv Hk.
  destruct (well_formed_parts m Hwf) as [Hnd [Hact [Hleaf [Hasg Hch]]]].
  destruct m as [c0 s e st bf at' l]. unfold set_modules.
  cbn [cls non_persistent_buffers_set export parameters buffers attrs modules] in *.
  apply well_formed_intro; cbn [modules].
  - rewrite keys_update. exact Hnd.
  - intros Hc. specialize (Hact Hc). specialize (Hk Hc).
    unfold act_is_module, getattr in *. cbn [attrs parameters buffers modules cls] in *.
    rewrite lookup_update_other by (intros E; apply Hk; symmetry; exact E).
    exact Hact.
  - intros Hn. specialize (Hleaf Hn). unfold is_leaf in *.
    cbn [parameters buffers modules] in *.
    destruct st; [| discriminate]. destruct bf; [| discriminate].
    destruct l; [reflexivity | discriminate].
  - unfold assignable, setattr_refused in *. cbn [parameters buffers modules] in *.
    rewrite keys_update. exact Hasg.
  - rewrite forallb_forall. intros nc Hnc.
    destruct (in_update _ _ _ _ Hnc) as [H | H].
    + rewrite forallb_forall in Hch. exact (Hch nc H).
    + rewrite H. exact Hv.
Qed.

Lemma getattr_update_child (m v c : Module) (k : string) :
  getattr m k = inr (AttrModule c) ->
  getattr (set_modules m (update k v (modules m))) k = inr (AttrModule v).
Proof.
  intros Hg. apply getattr_module in Hg. destruct Hg as [Ha [Hp [Hb Hm]]].
  apply getattr_module. destruct m as [c0 s e st bf at' l]. unfold set_modules.
  cbn [attrs parameters buffers modules] in *.
  repeat (split; [assumption |]). exact (lookup_update_same _ _ _ _ Hm).
Qed.

(** After [seq[-1]] has been replaced, [seq[-1]] is the replacement. *)
Lemma subscript_last_update (seq last v : Module) (ln : string) :
  nodupb (keys (modules seq)) = true ->
  subscript_last seq = inr (ln, last) ->
  subscript_last (set_modules seq (update ln v (modules seq))) = inr (ln, v).
Proof.
  intros Hnd. unfold subscript_last. destruct seq as [c s e st bf at' l].
  unfold set_modules. cbn [cls modules] in *.
  destruct c; try discriminate.
  - destruct (rev l) as [| [n x] rest] eqn:Hrev; [discriminate |].
    intros H. inversion H; subst n x. clear H.
    destruct (set_last_eq l rest ln last v Hrev) as [El _].
    assert (Hnot : ~ In ln (keys (rev rest))).
    { apply nodupb_app_last. rewrite El in Hnd. unfold keys in *.
      rewrite map_app in Hnd. exact Hnd. }
    rewrite El, (update_app_last _ _ _ _ Hnot), rev_app_distr. reflexivity.
  - destruct l as [| nc l]; [discriminate |].
    set (key := str_nat (length (nc :: l) - 1)).
    destruct (lookup key (nc :: l)) as [x |] eqn:Hk; [| discriminate].
    intros H. injection H as Hln Hx. subst x. rewrite <- Hln.
    pose proof (length_update key v (nc :: l)) as Hlen.
    destruct (update key v (nc :: l)) as [| nc' l'] eqn:Hu; [discriminate Hlen |].
    rewrite Hlen. fold key. rewrite <- Hu, (lookup_update_same _ _ _ _ Hk).
    reflexivity.
Qed.

Lemma setattr_refused_set_export (m : Module) (b : bool) (name typename : string) :
  setattr_refused (set_export m b) name typename = setattr_refused m name typename.
Proof. destruct m; reflexivity. Qed.

(** Line 96 on a tree that has been through the traversal: the result has
    been through it too, and line 96 leaves it as it is. *)
Lemma set_detect_export_settled (W R : Module) (grid : bool) :
  well_formed W = true ->
  walk W = W ->
  set_detect_export W grid = inr R ->
  well_formed R = true /\ walk R = R /\ set_detect_export R grid = inr R.
Proof.
  intros Hwf Hw. unfold set_detect_export at 1.
  destruct (getattr W "model") as [e | [a | t | seq]] eqn:Hg;
    [discriminate | discriminate | |].
  { destruct (tensor_last_refused t) eqn:Ht; [discriminate |].
    intros H. inversion H; subst R.
    split; [exact Hwf |]. split; [exact Hw |].
    unfold set_detect_export. rewrite Hg, Ht. reflexivity. }
  destruct (subscript_last seq) as [e | [ln last]] eqn:Hsub; [discriminate |].
  destruct (setattr_refused last "export" "bool") eqn:Hset; [discriminate |].
  intros H. inversion H; subst R. clear H.
  pose proof Hg as Hg0. apply getattr_module in Hg0. destruct Hg0 as [_ [_ [_ Hm]]].
  pose proof (well_formed_child W ("model", seq) Hwf (lookup_in _ _ _ Hm)) as Hwseq.
  cbn [snd] in Hwseq.
  destruct (well_formed_parts seq Hwseq) as [Hnds _].
  set (X := set_export last (negb grid)).
  destruct (subscript_last_store seq last X ln Hnds Hsub) as [Hl Hs]. rewrite Hs.
  destruct (subscript_last_container seq last ln Hsub) as [_ [Hnc _]].
  pose proof (well_formed_child seq (ln, last) Hwseq (lookup_in _ _ _ Hl)) as Hwlast.
  cbn [snd] in Hwlast.
  assert (Hwseq' : walk seq = seq).
  { apply (walk_fixed_child W seq "model" Hw Hm). apply andb_false_r. }
  assert (Hwlast' : walk last = last).
  { apply (walk_fixed_child seq last ln Hwseq' Hl). rewrite Hnc. reflexivity. }
  assert (HwX : walk X = X).
  { unfold X. rewrite walk_set_export, Hwlast'. reflexivity. }
  assert (HwfX : well_formed X = true).
  { unfold X. rewrite well_formed_set_export. exact Hwlast. }
  set (seq' := set_modules seq (update ln X (modules seq))).
  assert (Hwf' : well_formed seq' = true).
  { apply well_formed_update_child; [exact Hwseq | exact HwfX |].
    intros Hc. rewrite Hc in Hnc. discriminate. }
  assert (Hw' : walk seq' = seq').
  { apply walk_update_child; assumption. }
  unfold set_child.
  split; [| split].
  - apply well_formed_update_child; [exact Hwf | exact Hwf' |].
    intros _. discriminate.
  - destruct W as [c0 s0 e0 st0 bf0 at0 l0].
    unfold set_modules. cbn [cls non_persistent_buffers_set export parameters buffers attrs modules] in *.
    cbn [walk cls export parameters buffers attrs modules] in Hw |- *.
    injection Hw as Hs0 Hmap. subst s0. f_equal.
    rewrite (map_update
               (fun n c => if isinstance (Mod c0 [] e0 st0 bf0 at0
                                            (update "model" seq' l0)) ClsConv
                              && ("act" =? n)%string && is_nn_activation c
                           then export_friendly c else walk c)).
    replace ("act" =? "model")%string with false by reflexivity.
    rewrite andb_false_r. cbn [andb]. rewrite Hw'. f_equal. exact Hmap.
  - unfold set_detect_export.
    rewrite (getattr_update_child W seq' seq "model" Hg).
    unfold seq' at 1. rewrite (subscript_last_update seq last X ln Hnds Hsub).
    unfold X at 1. rewrite setattr_refused_set_export, Hset.
    assert (Hnds' : nodupb (keys (modules seq')) = true).
    { destruct (well_formed_parts seq' Hwf') as [H _]. exact H. }
    destruct (subscript_last_store seq' X (set_export X (negb grid)) ln Hnds'
                (subscript_last_update seq last X ln Hnds Hsub)) as [_ Hs'].
    rewrite Hs'. unfold X at 1. rewrite set_export_twice. fold X.
    assert (Hsm : set_modules seq' (update ln X (modules seq')) = seq').
    { unfold seq'. destruct seq as [c1 s1 e1 st1 bf1 at1 l1]. unfold set_modules.
      cbn [cls non_persistent_buffers_set export parameters buffers attrs modules].
      rewrite update_twice. reflexivity. }
    rewrite Hsm.
    destruct W as [c0 s0 e0 st0 bf0 at0 l0]. unfold set_child, set_modules.
    cbn [cls non_persistent_buffers_set export parameters buffers attrs modules].
    rewrite update_twice. reflexivity.
Qed.

(** X15. On a well-formed model the export-mode update is idempotent: run
    on its own result, with the same [--grid], it returns that result
    unchanged. *)
Theorem update_module_tree_idempotent (grid : bool) (root root' : Module) :
  well_formed root = true ->
  update_module_tree grid root = Some (inr root') ->
  update_module_tree grid root' = Some (inr root').
Proof.
  intros Hwf. unfold update_module_tree at 1.
  rewrite (named_modules_loop_walk (height root) root Hwf (le_n _)).
  intros H. injection H as Hsde.
  destruct (set_detect_export_settled (walk root) root' grid
              (well_formed_walk root Hwf) (walk_idempotent root) Hsde)
    as [Hwf' [Hw' Hs']].
  unfold update_module_tree.
  rewrite (named_modules_loop_walk (height root') root' Hwf' (le_n _)).
  rewrite Hw'. rewrite Hs'. reflexivity.
Qed.

Lemma update_module_tree_idempotent_witness :
  update_module_tree false
    (match update_module_tree false Sample.network with
     | Some (inr r) => r
     | _ => Sample.network
     end)
  = Some (inr (match update_module_tree false Sample.network with
               | Some (inr r) => r
               | _ => Sample.network
               end)).
Proof.
  apply (update_module_tree_idempotent false Sample.network); reflexivity.
Defined.
